(** * cjslep/activity, tools/exp/rdf: JSON-LD context resolution and the RFC ontology

    A shallow embedding of [tools/exp/rdf/parse.go] and
    [tools/exp/rdf/rfc/ontology.go], with the properties of the context
    resolver and of the three RFC reference nodes. *)

From stdpp Require Import base option list strings gmap.
From Stdlib Require Import ZArith.

Set Warnings "-register-all".
Local Open Scope string_scope.
Local Open Scope list_scope.

(** ** Dynamic values

    [interface{}] as produced by decoding JSON.  A Go map is ranged over in an
    unspecified order: [VMap] carries its entries in the order one [range]
    statement visits them, so that a statement about every list of entries is a
    statement about every visiting order.  The payload of a number is never
    inspected by the code below. *)
Inductive Value : Type :=
| VNil
| VBool (b : bool)
| VNumber (n : Z)
| VString (s : string)
| VArray (elems : list Value)
| VMap (entries : list (string * Value))
| VError (e : error)
(** Go's [error], as built by [fmt.Errorf]: the format string and its
    arguments, left unformatted. *)
with error : Type :=
| Errorf (format : string) (args : list Value).

(** ** tools/exp/rdf/parse.go *)

Definition JSON_LD_CONTEXT : string := "@context".

(** [type JSONLD map[string]interface{}]: the top-level document is only ever
    indexed, never ranged over. *)
Abbreviation JSONLD := (gmap string Value).

(** The resolver treats nodes as opaque: it only appends the slices the
    registry hands back.  It is therefore written once, for any node type. *)
Section Resolver.
Context {RDFNode : Type}.

(** [*RDFRegistry].  Its declaration is outside the two files; the resolver
    uses exactly these three methods of it, each a Go function returning
    [([]RDFNode, error)]. *)
Record RDFRegistry : Type := {
  getFor : string -> list RDFNode * option error;
  getAliased : string -> string -> list RDFNode * option error;
  getAliasedObject :
    string -> list (string * Value) -> list RDFNode * option error
}.

(** The loop [for alias, val := range m { ... }] of lines 49-68 and again of
    lines 84-103; the two copies differ only in the text of the shape error,
    passed here as [shape].  [nodes] is the named result accumulated so far;
    an early [return] hands it back together with [err]. *)
Fixpoint resolveDict (registry : RDFRegistry) (shape : string)
    (entries : list (string * Value)) (nodes : list RDFNode)
    : list RDFNode * option error :=
  match entries with
  | [] => (nodes, None)
  | (alias, val) :: rest =>
      match val with
      | VString s =>
          let '(n, err) := getAliased registry alias s in
          match err with
          | Some e => (nodes, Some e)
          | None => resolveDict registry shape rest (nodes ++ n)
          end
      | VMap aliasedMap =>
          let '(n, err) := getAliasedObject registry alias aliasedMap in
          match err with
          | Some e => (nodes, Some e)
          | None => resolveDict registry shape rest (nodes ++ n)
          end
      | _ => (nodes, Some (Errorf shape []))
      end
  end.

(** The loop [for _, iVal := range inArray { ... }] of lines 46-81. *)
Fixpoint resolveArray (registry : RDFRegistry) (inArray : list Value)
    (nodes : list RDFNode) : list RDFNode * option error :=
  match inArray with
  | [] => (nodes, None)
  | iVal :: rest =>
      match iVal with
      | VMap valMap =>
          let '(nodes', err) :=
            resolveDict registry
              "@context value in dict in array is neither a dict nor a string"
              valMap nodes in
          match err with
          | Some e => (nodes', Some e)
          | None => resolveArray registry rest nodes'
          end
      | VString s =>
          let '(n, err) := getFor registry s in
          match err with
          | Some e => (nodes, Some e)
          | None => resolveArray registry rest (nodes ++ n)
          end
      | _ =>
          (nodes,
           Some (Errorf
                   "@context value in array is neither a dict nor a string" []))
      end
  end.

(** The type assertion [s, ok := i.(string)]. *)
Definition assertString (i : Value) : string * bool :=
  match i with
  | VString s => (s, true)
  | _ => ("", false)
  end.

(** [parseJSONLDContext].  In the last branch [err] is assigned when the
    assertion fails, and then [return registry.getFor(s)] assigns both named
    results again. *)
Definition parseJSONLDContext (registry : RDFRegistry) (input : JSONLD)
    : list RDFNode * option error :=
  match input !! JSON_LD_CONTEXT with
  | None => ([], Some (Errorf "no @context in input" []))
  | Some i =>
      match i with
      | VArray inArray => resolveArray registry inArray []
      | VMap inMap =>
          resolveDict registry
            "@context value in dict is neither a dict nor a string" inMap []
      | _ =>
          let '(s, ok) := assertString i in
          let err :=
            if ok then None
            else Some (Errorf "single @context value is not a string" []) in
          let '(nodes, err) := getFor registry s in
          (nodes, err)
      end
  end.

End Resolver.

Arguments RDFRegistry : clear implicits.

(** ** What the two files take from outside

    [net/url] (the type [url.URL] and [url.Parse]) is a library of the Go
    distribution, and [codegen.This()], the name the generated functions give
    their argument, is declared in another package of the repository.  Both are
    taken as parameters. *)
Class Externals : Type := {
  URL : Type;
  URL_eq_dec :: EqDecision URL;
  url_Parse : string -> URL + error;
  This : string
}.

(** ** Generated code

    The fragment of [github.com/dave/jennifer/jen] that ontology.go builds
    function bodies with.  Each constructor stands for the chain of jen calls
    written next to it. *)
Inductive Code : Type :=
| Id (name : string)                       (* jen.Id(name) *)
| Nil                                      (* jen.Nil() *)
| Lit (s : string)                         (* jen.Lit(s) *)
| String_                                  (* jen.String() *)
| Op (lhs : Code) (op : string) (rhs : Code)   (* lhs.Op(op).rhs *)
| Assert (x : Code) (ty : Code)            (* x.Assert(ty) *)
| List (items : list Code)                 (* jen.List(items...) *)
| QualCall (pkg name : string) (args : list Code)
                                           (* jen.Qual(pkg, name).Call(args...) *)
| Return (results : list Code)             (* jen.Return(results...) *)
| IfElse (init cond : Code) (thn els : list Code).
                (* jen.If(init, cond).Block(thn...).Else().Block(els...) *)

#[global] Instance Code_eq_dec : EqDecision Code.
Proof.
  unfold EqDecision, Decision. fix IH 1.
  decide equality;
    first [ apply String.string_dec | apply (List.list_eq_dec IH) ].
Defined.

(** *** What the generated statements do

    A reading of the Go statements that the [Code] above denotes, for the
    shapes ontology.go builds: identifiers are looked up in an environment, the
    innermost binding first; [return] evaluates its operands; the comma-ok type
    assertion of an [if] header binds its two names for both branches. *)
Definition Env : Type := list (string * Value).

Fixpoint lookupVar (x : string) (env : Env) : option Value :=
  match env with
  | [] => None
  | (y, v) :: env' => if String.eqb x y then Some v else lookupVar x env'
  end.

Fixpoint eval (env : Env) (e : Code) {struct e} : option Value :=
  match e with
  | Id x => lookupVar x env
  | Nil => Some VNil
  | Lit s => Some (VString s)
  | Op lhs op rhs =>
      if String.eqb op "<" then
        match eval env lhs, eval env rhs with
        | Some (VString a), Some (VString b) => Some (VBool (String.ltb a b))
        | _, _ => None
        end
      else None
  | QualCall pkg name (Lit format :: args) =>
      if String.eqb pkg "fmt" && String.eqb name "Errorf" then
        match mapM (eval env) args with
        | Some vs => Some (VError (Errorf format vs))
        | None => None
        end
      else None
  | _ => None
  end.

(** [s, ok := x.(string)] in the header of an [if]. *)
Definition execInit (env : Env) (init : Code) : option Env :=
  match init with
  | Op (List [Id s; Id ok]) op (Assert x String_) =>
      if String.eqb op ":=" then
        match eval env x with
        | Some (VString str) => Some ((s, VString str) :: (ok, VBool true) :: env)
        | Some _ => Some ((s, VString "") :: (ok, VBool false) :: env)
        | None => None
        end
      else None
  | _ => None
  end.

Inductive Outcome : Type :=
| Returned (results : list Value)
| Fallthrough
| Stuck.

Definition runBlock (step : Env -> Code -> Outcome) (env : Env)
    : list Code -> Outcome :=
  fix go (body : list Code) : Outcome :=
    match body with
    | [] => Fallthrough
    | c :: rest =>
        match step env c with
        | Fallthrough => go rest
        | o => o
        end
    end.

Fixpoint exec (env : Env) (c : Code) {struct c} : Outcome :=
  match c with
  | Return results =>
      match mapM (eval env) results with
      | Some vs => Returned vs
      | None => Stuck
      end
  | IfElse init cond thn els =>
      match execInit env init with
      | Some env' =>
          match eval env' cond with
          | Some (VBool true) => runBlock (fun r s => exec r s) env' thn
          | Some (VBool false) => runBlock (fun r s => exec r s) env' els
          | _ => Stuck
          end
      | None => Stuck
      end
  | _ => Stuck
  end.

Definition execBlock (env : Env) (body : list Code) : Outcome :=
  runBlock exec env body.

(** *** Generated functions *)

Inductive FunctionKind : Type := SerializeKind | DeserializeKind | LessKind.

#[global] Instance FunctionKind_eq_dec : EqDecision FunctionKind.
Proof. solve_decision. Defined.

(** Modelled from the spec: [codegen.Function] and the three builders
    [rdf.SerializeValueFunction], [rdf.DeserializeValueFunction] and
    [rdf.LessFunction] are declared outside the two files.  The spec describes
    what they build as the three transform contracts of a term: Serialize
    (value to wire form), Deserialize (wire form to value) and Less (a
    comparator of two values of the term).  The record keeps the four
    arguments ontology.go passes and which contract was asked for. *)
Record Function : Type := {
  fnKind : FunctionKind;
  fnPkg : string;
  fnValueName : string;
  fnConcreteType : Code;
  fnImpl : list Code
}.

#[global] Instance Function_eq_dec : EqDecision Function.
Proof. solve_decision. Defined.

(** Modelled from the spec: [rdf.SerializeValueFunction], the builder of the
    Serialize contract. *)
Definition SerializeValueFunction (pkg valueName : string)
    (concreteType : Code) (impl : list Code) : Function :=
  {| fnKind := SerializeKind; fnPkg := pkg; fnValueName := valueName;
     fnConcreteType := concreteType; fnImpl := impl |}.

(** Modelled from the spec: [rdf.DeserializeValueFunction], the builder of
    the Deserialize contract. *)
Definition DeserializeValueFunction (pkg valueName : string)
    (concreteType : Code) (impl : list Code) : Function :=
  {| fnKind := DeserializeKind; fnPkg := pkg; fnValueName := valueName;
     fnConcreteType := concreteType; fnImpl := impl |}.

(** Modelled from the spec: [rdf.LessFunction], the builder of the Less
    contract. *)
Definition LessFunction (pkg valueName : string)
    (concreteType : Code) (impl : list Code) : Function :=
  {| fnKind := LessKind; fnPkg := pkg; fnValueName := valueName;
     fnConcreteType := concreteType; fnImpl := impl |}.

Section Model.
Context `{Externals}.

(** Modelled from the spec: the parameter lists of the built functions.
    Serialize and Deserialize take the one value they convert, under the
    name [codegen.This()] that their bodies in ontology.go use; Less takes
    the two values it compares, which its body calls [lhs] and [rhs]. *)
Definition parameters (f : Function) : list string :=
  match fnKind f with
  | SerializeKind | DeserializeKind => [This]
  | LessKind => ["lhs"; "rhs"]
  end.

(** A call binds the arguments to the parameters and runs the body; [None]
    when the arity is wrong or the body does not reach a [return]. *)
Definition call (f : Function) (args : list Value) : option (list Value) :=
  if (length (parameters f) =? length args)%nat then
    match execBlock (zip (parameters f) args) (fnImpl f) with
    | Returned results => Some results
    | _ => None
    end
  else None.

(** ** The vocabulary model *)

(** Modelled from the spec: [rdf.VocabularyValue] is declared outside the
    two files.  "One resolved term: name, URI, a type descriptor, a
    zero-value literal, a nilability flag, and three named transform
    contracts"; the field names are those ontology.go assigns.  The URI, the
    type descriptor and the three functions are Go pointers or interfaces,
    nil in the zero value. *)
Record VocabularyValue : Type := {
  Name : string;
  URI : option URL;
  DefinitionType : option Code;
  Zero : string;
  IsNilable : bool;
  SerializeFn : option Function;
  DeserializeFn : option Function;
  LessFn : option Function
}.

#[global] Instance VocabularyValue_eq_dec : EqDecision VocabularyValue.
Proof. solve_decision. Defined.

(** The value Go yields when a map is indexed at an absent key. *)
Definition zeroVocabularyValue : VocabularyValue :=
  {| Name := ""; URI := None; DefinitionType := None; Zero := "";
     IsNilable := false; SerializeFn := None; DeserializeFn := None;
     LessFn := None |}.

(** Modelled from the spec: the Reference Entry, "a mapping from term name
    to Vocabulary Value", whose declaration is outside the two files. *)
Record Vocabulary : Type := {
  Values : gmap string VocabularyValue
}.

(** [v.Values[name]]. *)
Definition valueAt (v : Vocabulary) (name : string) : VocabularyValue :=
  default zeroVocabularyValue (Values v !! name).

(** Modelled from the spec: the Parsed Vocabulary, a "mapping from
    specification-URI reference to a Reference Entry", whose declaration is
    outside the two files. *)
Record ParsedVocabulary : Type := {
  References : gmap string Vocabulary
}.

(** [type ParsingContext struct { Result ParsedVocabulary }] (parse.go). *)
Record ParsingContext : Type := {
  Result : ParsedVocabulary
}.

(** Modelled from the spec: [ParsedVocabulary.GetReference], "fetch or
    create the Reference Entry for this provider's spec URI".  Go returns a
    pointer to the entry held by the map; here the entry is read out, and
    whoever changes it stores it back with [storeReference]. *)
Definition GetReference (uri : string) (p : ParsedVocabulary)
    : ParsedVocabulary * Vocabulary :=
  match References p !! uri with
  | Some v => (p, v)
  | None =>
      ({| References := <[uri := {| Values := ∅ |}]> (References p) |},
       {| Values := ∅ |})
  end.

Definition storeReference (uri : string) (v : Vocabulary)
    (p : ParsedVocabulary) : ParsedVocabulary :=
  {| References := <[uri := v]> (References p) |}.

(** The spec names the error of a refused commit only by its kind. *)
Definition Collision (name : string) : error :=
  Errorf "Collision" [VString name].

(** Modelled from the spec: [Vocabulary.SetValue], the commit step.
    "Committing two different Vocabulary Values to the same (spec, term)
    slot fails with Collision; committing the same value twice succeeds
    silently (no-op)"; a free slot is filled. *)
Definition SetValue (name : string) (a : VocabularyValue) (v : Vocabulary)
    : Vocabulary * option error :=
  match Values v !! name with
  | None => ({| Values := <[name := a]> (Values v) |}, None)
  | Some old =>
      if decide (old = a) then (v, None) else (v, Some (Collision name))
  end.

End Model.

(** ** tools/exp/rdf/rfc/ontology.go *)

Definition rfcSpec : string := "https://tools.ietf.org/html/".
Definition bcp47Spec : string := "bcp47".
Definition mimeSpec : string := "rfc2045".
Definition relSpec : string := "rfc5988".

(** The Go literal of the zero value, a pair of double quotes. *)
Definition twoQuotes : string :=
  String (Ascii.ascii_of_nat 34) (String (Ascii.ascii_of_nat 34) EmptyString).

Record RFCOntology : Type := { Package : string }.

Record bcp47 : Type := { bcp47_pkg : string }.
Record mime : Type := { mime_pkg : string }.
Record rel : Type := { rel_pkg : string }.

(** The values of interface type [rdf.RDFNode] that this package creates: a
    pointer to one of its three node structs, or an [rdf.AliasedDelegate]
    (declared outside the two files) wrapping one. *)
Inductive RDFNode : Type :=
| Bcp47Node (b : bcp47)
| MimeNode (m : mime)
| RelNode (r : rel)
| AliasedDelegate (Spec Alias Name : string) (Delegate : RDFNode).

(** [strings.HasPrefix] and [strings.TrimPrefix]. *)
Definition HasPrefix (s prefix : string) : bool := String.prefix prefix s.

Definition TrimPrefix (s prefix : string) : string :=
  if HasPrefix s prefix then
    String.substring (String.length prefix)
      (String.length s - String.length prefix) s
  else s.

Definition SpecURI (o : RFCOntology) : string := rfcSpec.

Definition LoadAsAlias (o : RFCOntology) (s : string)
    : list RDFNode * option error :=
  ([ AliasedDelegate rfcSpec s bcp47Spec (Bcp47Node {| bcp47_pkg := Package o |});
     AliasedDelegate rfcSpec s mimeSpec (MimeNode {| mime_pkg := Package o |});
     AliasedDelegate rfcSpec s relSpec (RelNode {| rel_pkg := Package o |}) ],
   None).

Definition Load (o : RFCOntology) : list RDFNode * option error :=
  LoadAsAlias o "".

Definition LoadSpecificAsAlias (o : RFCOntology) (alias name : string)
    : list RDFNode * option error :=
  if String.eqb name bcp47Spec then
    ([AliasedDelegate "" "" alias (Bcp47Node {| bcp47_pkg := Package o |})], None)
  else if String.eqb name mimeSpec then
    ([AliasedDelegate "" "" alias (MimeNode {| mime_pkg := Package o |})], None)
  else if String.eqb name relSpec then
    ([AliasedDelegate "" "" alias (RelNode {| rel_pkg := Package o |})], None)
  else
    ([], Some (Errorf "rfc ontology cannot find %q to alias to %q"
                 [VString name; VString alias])).

Definition LoadElement (o : RFCOntology) (name : string)
    (payload : list (string * Value)) : list RDFNode * option error :=
  ([], None).

Definition GetByName (o : RFCOntology) (name : string)
    : option RDFNode * option error :=
  let name := TrimPrefix name (SpecURI o) in
  if String.eqb name bcp47Spec then
    (Some (Bcp47Node {| bcp47_pkg := Package o |}), None)
  else if String.eqb name mimeSpec then
    (Some (MimeNode {| mime_pkg := Package o |}), None)
  else if String.eqb name relSpec then
    (Some (RelNode {| rel_pkg := Package o |}), None)
  else
    (None, Some (Errorf "rfc ontology could not find node for name %s"
                   [VString name])).

Section RFC.
Context `{Externals}.

(** The three methods every node struct of this package has.  [Enter] and
    [Exit] leave the context alone; [Apply] returns the context as it leaves
    it.  The context pointer is taken to be non-nil. *)
Class NodeMethods (T : Type) : Type := {
  Enter : T -> string -> ParsingContext -> bool * option error;
  Exit : T -> string -> ParsingContext -> bool * option error;
  Apply : T -> string -> Value -> ParsingContext
          -> ParsingContext * (bool * option error)
}.

(** *** bcp47 *)

Definition bcp47_Enter (b : bcp47) (key : string) (ctx : ParsingContext)
    : bool * option error :=
  (true, Some (Errorf "bcp47 langaugetag cannot be entered" [])).

Definition bcp47_Exit (b : bcp47) (key : string) (ctx : ParsingContext)
    : bool * option error :=
  (true, Some (Errorf "bcp47 languagetag cannot be exited" [])).

(** The [VocabularyValue] literal of lines 127-178. *)
Definition bcp47_val (b : bcp47) (u : URL) : VocabularyValue :=
  {| Name := bcp47Spec;
     URI := Some u;
     DefinitionType := Some String_;
     Zero := twoQuotes;
     IsNilable := false;
     SerializeFn := Some (SerializeValueFunction (bcp47_pkg b) bcp47Spec String_
       [ Return [Id This; Nil] ]);
     DeserializeFn := Some (DeserializeValueFunction (bcp47_pkg b) bcp47Spec String_
       [ IfElse
           (Op (List [Id "s"; Id "ok"]) ":=" (Assert (Id This) String_))
           (Id "ok")
           [ Return [Id "s"; Nil] ]
           [ Return
               [ Lit "";
                 QualCall "fmt" "Errorf"
                   [ Lit "%v cannot be interpreted as a string for bcp47 languagetag";
                     Id This ] ] ] ]);
     LessFn := Some (LessFunction (bcp47_pkg b) bcp47Spec String_
       [ Return [Op (Id "lhs") "<" (Id "rhs")] ]) |}.

Definition bcp47_Apply (b : bcp47) (key : string) (value : Value)
    (ctx : ParsingContext) : ParsingContext * (bool * option error) :=
  let '(res, v) := GetReference rfcSpec (Result ctx) in
  if (String.length (Name (valueAt v bcp47Spec)) =? 0)%nat then
    match url_Parse (rfcSpec +:+ bcp47Spec) with
    | inr err => ({| Result := res |}, (true, Some err))
    | inl u =>
        let val := bcp47_val b u in
        let '(v', err) := SetValue bcp47Spec val v in
        match err with
        | Some e =>
            ({| Result := storeReference rfcSpec v' res |}, (true, Some e))
        | None =>
            ({| Result := storeReference rfcSpec v' res |}, (true, None))
        end
    end
  else ({| Result := res |}, (true, None)).

#[global] Instance bcp47_methods : NodeMethods bcp47 :=
  {| Enter := bcp47_Enter; Exit := bcp47_Exit; Apply := bcp47_Apply |}.

(** *** mime *)

Definition mime_Enter (m : mime) (key : string) (ctx : ParsingContext)
    : bool * option error :=
  (true, Some (Errorf "MIME media type cannot be entered" [])).

Definition mime_Exit (m : mime) (key : string) (ctx : ParsingContext)
    : bool * option error :=
  (true, Some (Errorf "MIME media type cannot be exited" [])).

(** The [VocabularyValue] literal of lines 207-258. *)
Definition mime_val (m : mime) (u : URL) : VocabularyValue :=
  {| Name := mimeSpec;
     URI := Some u;
     DefinitionType := Some String_;
     Zero := twoQuotes;
     IsNilable := false;
     SerializeFn := Some (SerializeValueFunction (mime_pkg m) mimeSpec String_
       [ Return [Id This; Nil] ]);
     DeserializeFn := Some (DeserializeValueFunction (mime_pkg m) mimeSpec String_
       [ IfElse
           (Op (List [Id "s"; Id "ok"]) ":=" (Assert (Id This) String_))
           (Id "ok")
           [ Return [Id "s"; Nil] ]
           [ Return
               [ Lit "";
                 QualCall "fmt" "Errorf"
                   [ Lit "%v cannot be interpreted as a string for MIME media type";
                     Id This ] ] ] ]);
     LessFn := Some (LessFunction (mime_pkg m) mimeSpec String_
       [ Return [Op (Id "lhs") "<" (Id "rhs")] ]) |}.

Definition mime_Apply (m : mime) (key : string) (value : Value)
    (ctx : ParsingContext) : ParsingContext * (bool * option error) :=
  let '(res, v) := GetReference rfcSpec (Result ctx) in
  if (String.length (Name (valueAt v mimeSpec)) =? 0)%nat then
    match url_Parse (rfcSpec +:+ mimeSpec) with
    | inr err => ({| Result := res |}, (true, Some err))
    | inl u =>
        let val := mime_val m u in
        let '(v', err) := SetValue mimeSpec val v in
        match err with
        | Some e =>
            ({| Result := storeReference rfcSpec v' res |}, (true, Some e))
        | None =>
            ({| Result := storeReference rfcSpec v' res |}, (true, None))
        end
    end
  else ({| Result := res |}, (true, None)).

#[global] Instance mime_methods : NodeMethods mime :=
  {| Enter := mime_Enter; Exit := mime_Exit; Apply := mime_Apply |}.

(** *** rel *)

Definition rel_Enter (r : rel) (key : string) (ctx : ParsingContext)
    : bool * option error :=
  (true, Some (Errorf "rel cannot be entered" [])).

Definition rel_Exit (r : rel) (key : string) (ctx : ParsingContext)
    : bool * option error :=
  (true, Some (Errorf "rel cannot be exited" [])).

(** The [VocabularyValue] literal of lines 287-338. *)
Definition rel_val (r : rel) (u : URL) : VocabularyValue :=
  {| Name := relSpec;
     URI := Some u;
     DefinitionType := Some String_;
     Zero := twoQuotes;
     IsNilable := false;
     SerializeFn := Some (SerializeValueFunction (rel_pkg r) relSpec String_
       [ Return [Id This; Nil] ]);
     DeserializeFn := Some (DeserializeValueFunction (rel_pkg r) relSpec String_
       [ IfElse
           (Op (List [Id "s"; Id "ok"]) ":=" (Assert (Id This) String_))
           (Id "ok")
           [ Return [Id "s"; Nil] ]
           [ Return
               [ Lit "";
                 QualCall "fmt" "Errorf"
                   [ Lit "%v cannot be interpreted as a string for rel";
                     Id This ] ] ] ]);
     LessFn := Some (LessFunction (rel_pkg r) relSpec String_
       [ Return [Op (Id "lhs") "<" (Id "rhs")] ]) |}.

Definition rel_Apply (r : rel) (key : string) (value : Value)
    (ctx : ParsingContext) : ParsingContext * (bool * option error) :=
  let '(res, v) := GetReference rfcSpec (Result ctx) in
  if (String.length (Name (valueAt v relSpec)) =? 0)%nat then
    match url_Parse (rfcSpec +:+ relSpec) with
    | inr err => ({| Result := res |}, (true, Some err))
    | inl u =>
        let val := rel_val r u in
        let '(v', err) := SetValue relSpec val v in
        match err with
        | Some e =>
            ({| Result := storeReference rfcSpec v' res |}, (true, Some e))
        | None =>
            ({| Result := storeReference rfcSpec v' res |}, (true, None))
        end
    end
  else ({| Result := res |}, (true, None)).

#[global] Instance rel_methods : NodeMethods rel :=
  {| Enter := rel_Enter; Exit := rel_Exit; Apply := rel_Apply |}.

End RFC.

(** ** tools/exp/rdf/parse.go: the entry point *)

(** [ParseVocabulary].  The named result [vocabulary] is never assigned; the
    nodes of the resolver go to the blank identifier. *)
Definition ParseVocabulary `{Externals} {N : Type}
    (registry : RDFRegistry N) (input : JSONLD)
    : option ParsedVocabulary * option error :=
  let vocabulary : option ParsedVocabulary := None in
  let '(_, err) := parseJSONLDContext registry input in
  (vocabulary, err).

(** ** Vocabulary used to state the properties *)

(** "Neither a mapping nor a string." *)
Definition isDictOrString (v : Value) : bool :=
  match v with
  | VMap _ | VString _ => true
  | _ => false
  end.

(** "Neither a sequence, nor a mapping, nor a string." *)
Definition isScalarNonString (v : Value) : bool :=
  match v with
  | VArray _ | VMap _ | VString _ => false
  | _ => true
  end.

(** The shape error of the array loop (line 78). *)
Definition arrayShapeError : error :=
  Errorf "@context value in array is neither a dict nor a string" [].

(** The shape error the last branch assigns (line 108). *)
Definition singleShapeError : error :=
  Errorf "single @context value is not a string" [].

(** [name] with the prefix taken off once if it starts with it, and [name]
    itself otherwise. *)
Inductive Stripped (prefix : string) : string -> string -> Prop :=
| Stripped_prefix (suffix : string) :
    Stripped prefix (prefix +:+ suffix) suffix
| Stripped_none (name : string) :
    (forall suffix, name <> prefix +:+ suffix) ->
    Stripped prefix name name.

(** The term a reference entry of a context holds under a name: the read
    [ctx.Result.References[spec].Values[name]], zero where absent. *)
Definition termAt `{Externals} (ctx : ParsingContext) (spec name : string)
    : VocabularyValue :=
  valueAt (default {| Values := ∅ |} (References (Result ctx) !! spec)) name.

(** The common shape of the three [Apply] methods, which differ in the term
    name and in the value they build. *)
Definition applyTerm `{Externals} (term : string)
    (mk : URL -> VocabularyValue) (ctx : ParsingContext)
    : ParsingContext * (bool * option error) :=
  let '(res, v) := GetReference rfcSpec (Result ctx) in
  if (String.length (Name (valueAt v term)) =? 0)%nat then
    match url_Parse (rfcSpec +:+ term) with
    | inr err => ({| Result := res |}, (true, Some err))
    | inl u =>
        let '(v', err) := SetValue term (mk u) v in
        ({| Result := storeReference rfcSpec v' res |}, (true, err))
    end
  else ({| Result := res |}, (true, None)).

(** The error of the generated bcp47 [Deserialize] (lines 162-165), with the
    value it is given as the argument of [%v]. *)
Definition bcp47TypeMismatch (x : Value) : error :=
  Errorf "%v cannot be interpreted as a string for bcp47 languagetag" [x].

(** ** Concrete registries, parsers and contexts *)

(** A URL parser that accepts every string and keeps its text, with the
    argument name [this]. *)
Definition rawExternals : Externals :=
  {| URL := string; url_Parse := fun s => inl s; This := "this" |}.

(** The same parser, with an argument name that the [if] header of the
    generated Deserialize declares again. *)
Definition shadowedExternals : Externals :=
  {| URL := string; url_Parse := fun s => inl s; This := "s" |}.

(** A registry that knows the RFC ontology under its spec URI and nothing
    else. *)
Definition rfcRegistry (o : RFCOntology) : RDFRegistry RDFNode :=
  {| getFor := fun s =>
       if String.eqb s (SpecURI o) then Load o
       else ([], Some (Errorf "no ontology for %s" [VString s]));
     getAliased := fun alias s =>
       if String.eqb s (SpecURI o) then LoadAsAlias o alias
       else ([], Some (Errorf "no ontology for %s" [VString s]));
     getAliasedObject := fun alias obj => LoadElement o alias obj |}.

(** A registry that holds a provider without a fixed URI, registered under
    the empty name, which offers the bcp47 node. *)
Definition aliasOnlyRegistry (o : RFCOntology) : RDFRegistry RDFNode :=
  {| getFor := fun s =>
       if String.eqb s "" then ([Bcp47Node {| bcp47_pkg := Package o |}], None)
       else ([], Some (Errorf "no ontology for %s" [VString s]));
     getAliased := fun alias s =>
       ([], Some (Errorf "no ontology for %s" [VString s]));
     getAliasedObject := fun alias obj => ([], None) |}.

Definition goFed : RFCOntology := {| Package := "vocab" |}.

(** A context whose RFC entry holds, at the bcp47 slot, a value without a
    name. *)
Definition unnamedSlotContext : @ParsingContext rawExternals :=
  {| Result :=
       {| References :=
            {[ rfcSpec := {| Values := {[ bcp47Spec := zeroVocabularyValue ]} |} ]} |} |}.

Definition emptyContext : @ParsingContext rawExternals :=
  {| Result := {| References := ∅ |} |}.

(** The documents [{"@context": 42}], [{"@context": ["as", 42]}],
    [{"@context": [rfcSpec, 42]}], [{"@context": [rfcSpec, rfcSpec]}] and
    [{}]. *)
Definition numberDocument : JSONLD :=
  {[ JSON_LD_CONTEXT := VNumber 42 ]}.

Definition unknownThenNumber : JSONLD :=
  {[ JSON_LD_CONTEXT := VArray ([VString "as"] ++ VNumber 42 :: []) ]}.

Definition rfcThenNumber : JSONLD :=
  {[ JSON_LD_CONTEXT := VArray ([VString rfcSpec] ++ VNumber 42 :: []) ]}.

Definition rfcTwice : JSONLD :=
  {[ JSON_LD_CONTEXT := VArray (VString <$> [rfcSpec; rfcSpec]) ]}.

Definition emptyDocument : JSONLD := ∅.

(** ** Further vocabulary *)

(** A document whose [@context] is [v], whatever else it holds. *)
Definition withContext (v : Value) (doc : JSONLD) : JSONLD :=
  <[JSON_LD_CONTEXT := v]> doc.

(** The slot of a term: [References[spec].Values[name]] as the comma-ok read
    would give it, [None] where the entry or the key is absent. *)
Definition slotAt `{Externals} (ctx : ParsingContext) (spec name : string)
    : option VocabularyValue :=
  References (Result ctx) !! spec ≫= fun v => Values v !! name.

(** The errors of the generated mime and rel [Deserialize] (lines 242-245 and
    322-325). *)
Definition mimeTypeMismatch (x : Value) : error :=
  Errorf "%v cannot be interpreted as a string for MIME media type" [x].

Definition relTypeMismatch (x : Value) : error :=
  Errorf "%v cannot be interpreted as a string for rel" [x].

(** The shape error of the top-level mapping loop (line 100). *)
Definition dictShapeError : error :=
  Errorf "@context value in dict is neither a dict nor a string" [].

(** One of the three node structs of the package, as a value: what the
    interface [rdf.RDFNode] holds when it holds a node of this package other
    than a delegate. *)
Inductive RFCNode : Type :=
| OfBcp47 (b : bcp47)
| OfMime (m : mime)
| OfRel (r : rel).

(** The term a node stands for: the key its [Apply] reads and writes. *)
Definition termOf (n : RFCNode) : string :=
  match n with
  | OfBcp47 _ => bcp47Spec
  | OfMime _ => mimeSpec
  | OfRel _ => relSpec
  end.

(** The value a node commits, given the parsed URI. *)
Definition valOf `{Externals} (n : RFCNode) (u : URL) : VocabularyValue :=
  match n with
  | OfBcp47 b => bcp47_val b u
  | OfMime m => mime_val m u
  | OfRel r => rel_val r u
  end.

(** The method call [n.Apply(key, value, ctx)], dispatched on the struct. *)
Definition applyNode `{Externals} (n : RFCNode) (key : string) (value : Value)
    (ctx : ParsingContext) : ParsingContext * (bool * option error) :=
  match n with
  | OfBcp47 b => Apply b key value ctx
  | OfMime m => Apply m key value ctx
  | OfRel r => Apply r key value ctx
  end.

(** The reference entry of the RFC spec in a context, empty where absent. *)
Definition rfcEntry `{Externals} (ctx : ParsingContext) : Vocabulary :=
  default {| Values := ∅ |} (References (Result ctx) !! rfcSpec).

(** What the body of an [Apply] does to the entry it fetched: nothing when
    the name of the term is set, and otherwise parse the URI and commit. *)
Definition commitTerm `{Externals} (term : string)
    (mk : URL -> VocabularyValue) (v : Vocabulary)
    : Vocabulary * option error :=
  if (String.length (Name (valueAt v term)) =? 0)%nat then
    match url_Parse (rfcSpec +:+ term) with
    | inr err => (v, Some err)
    | inl u => SetValue term (mk u) v
    end
  else (v, None).

(** What [commitTerm] decides from the slot of the term alone: the value to
    write, if any, and the error. *)
Definition commitDecision `{Externals} (term : string)
    (mk : URL -> VocabularyValue) (slot : option VocabularyValue)
    : option VocabularyValue * option error :=
  if (String.length (Name (default zeroVocabularyValue slot)) =? 0)%nat then
    match url_Parse (rfcSpec +:+ term) with
    | inr err => (None, Some err)
    | inl u =>
        match slot with
        | None => (Some (mk u), None)
        | Some old =>
            if decide (old = mk u) then (None, None)
            else (None, Some (Collision term))
        end
    end
  else (None, None).

(** Every slot in use under the RFC spec holds a value with a name.  This
    is how [Apply] leaves the entry: it is so in a context without entries,
    and the only write of the package stores a value under its own name. *)
Definition NamedSlots `{Externals} (ctx : ParsingContext) : Prop :=
  forall name v, slotAt ctx rfcSpec name = Some v -> Name v <> "".

(** The context a parse session starts from. *)
Definition newContext `{Externals} : ParsingContext :=
  {| Result := {| References := ∅ |} |}.

(** A run of [Apply] calls, one per triple of node, key and value, in
    sequence order. *)
Fixpoint applyAll `{Externals} (calls : list (RFCNode * string * Value))
    (ctx : ParsingContext) : ParsingContext :=
  match calls with
  | [] => ctx
  | (n, key, value) :: rest => applyAll rest (applyNode n key value ctx).1
  end.

(** ** Further concrete inputs *)

(** The three nodes of the package "vocab". *)
Definition bcp47Node : RFCNode := OfBcp47 {| bcp47_pkg := "vocab" |}.
Definition mimeNode : RFCNode := OfMime {| mime_pkg := "vocab" |}.
Definition relNode : RFCNode := OfRel {| rel_pkg := "vocab" |}.

(** A context in which the bcp47 term has been written. *)
Definition bcp47Context : @ParsingContext rawExternals :=
  {| Result :=
       {| References :=
            {[ rfcSpec :=
                 {| Values :=
                      {[ bcp47Spec :=
                           @bcp47_val rawExternals {| bcp47_pkg := "vocab" |}
                             "https://tools.ietf.org/html/bcp47" ]} |} ]} |} |}.

(** The mappings [{"a": rfcSpec, "b": rfcSpec}] in its two visiting orders,
    and [{"a": rfcSpec}]. *)
Definition twoAliases : list (string * Value) :=
  [("a", VString rfcSpec); ("b", VString rfcSpec)].

Definition twoAliasesSwapped : list (string * Value) :=
  [("b", VString rfcSpec); ("a", VString rfcSpec)].

Definition oneAlias : list (string * Value) := [("a", VString rfcSpec)].

(** "Is a delegate." *)
Definition isDelegate (n : RDFNode) : Prop :=
  exists spec alias name d, n = AliasedDelegate spec alias name d.

(** * Properties of the resolver *)

Section ResolverProperties.
Context {N : Type} (registry : RDFRegistry N).

Lemma resolveArray_app (pre rest : list Value) (nodes : list N) :
  resolveArray registry (pre ++ rest) nodes =
  match resolveArray registry pre nodes with
  | (nodes', None) => resolveArray registry rest nodes'
  | failed => failed
  end.
Proof.
  revert nodes. induction pre as [|iVal pre IH]; intros nodes; [done|].
  destruct iVal; simpl; try done.
  - destruct (getFor registry s) as [n [e|]]; [done|]. apply IH.
  - destruct (resolveDict registry _ entries nodes) as [nodes' [e|]]; [done|].
    apply IH.
Qed.

Lemma resolveArray_strings (names : list string) (nodes : list N) :
  Forall (fun s => (getFor registry s).2 = None) names ->
  resolveArray registry (VString <$> names) nodes =
  (nodes ++ concat ((fun s => (getFor registry s).1) <$> names), None).
Proof.
  intros Hok. revert nodes.
  induction Hok as [|s names Hs _ IH]; intros nodes; simpl.
  - by rewrite app_nil_r.
  - destruct (getFor registry s) as [n err]; simpl in *; subst err.
    rewrite IH. by rewrite <- app_assoc.
Qed.

Lemma resolveArray_bad_element (bad : Value) (post : list Value)
    (nodes : list N) :
  isDictOrString bad = false ->
  resolveArray registry (bad :: post) nodes = (nodes, Some arrayShapeError).
Proof. by destruct bad. Qed.

Lemma parseJSONLDContext_scalar (input : JSONLD) (i : Value) :
  input !! JSON_LD_CONTEXT = Some i ->
  isScalarNonString i = true ->
  parseJSONLDContext registry input = getFor registry "".
Proof.
  intros Hi Hshape. unfold parseJSONLDContext. rewrite Hi.
  destruct i; try discriminate Hshape; simpl;
    by destruct (getFor registry "").
Qed.

(** C8.  A document without the key [@context] is refused with the error
    "no @context in input", and the node list returned is empty. *)
Theorem parseJSONLDContext_missing_context (input : JSONLD) :
  input !! JSON_LD_CONTEXT = None ->
  parseJSONLDContext registry input =
  ([], Some (Errorf "no @context in input" [])).
Proof. intros Hnone. unfold parseJSONLDContext. by rewrite Hnone. Qed.

(** C4.  When [@context] is a sequence of strings and every [getFor] lookup
    succeeds, the resolver returns, without error, the concatenation in
    sequence order of the node lists the lookups return; the number of nodes
    is the sum of the per-lookup numbers. *)
Theorem parseJSONLDContext_array_of_strings (input : JSONLD)
    (names : list string) :
  input !! JSON_LD_CONTEXT = Some (VArray (VString <$> names)) ->
  Forall (fun s => (getFor registry s).2 = None) names ->
  parseJSONLDContext registry input =
    (concat ((fun s => (getFor registry s).1) <$> names), None) /\
  length (parseJSONLDContext registry input).1 =
    sum_list ((fun s => length (getFor registry s).1) <$> names).
Proof.
  intros Hctx Hok.
  assert (parseJSONLDContext registry input =
          (concat ((fun s => (getFor registry s).1) <$> names), None)) as Heq.
  { unfold parseJSONLDContext. rewrite Hctx.
    by rewrite resolveArray_strings. }
  split; [done|]. rewrite Heq. simpl. clear.
  induction names as [|s names IH]; [done|].
  rewrite !fmap_cons. simpl. by rewrite length_app, IH.
Qed.

(** C9, as amended.  When the sequence under [@context] has an element that
    is neither a mapping nor a string, the resolver always fails.  It runs
    the elements before that one first: if they resolve without error, it
    stops at the element with the error "@context value in array is neither
    a dict nor a string", handing back the nodes collected so far; if one of
    them fails, it stops there with that failure instead. *)
Theorem parseJSONLDContext_array_bad_element (input : JSONLD)
    (pre post : list Value) (bad : Value) :
  input !! JSON_LD_CONTEXT = Some (VArray (pre ++ bad :: post)) ->
  isDictOrString bad = false ->
  (parseJSONLDContext registry input).2 <> None /\
  (forall nodes,
      resolveArray registry pre [] = (nodes, None) ->
      parseJSONLDContext registry input = (nodes, Some arrayShapeError)) /\
  (forall nodes e,
      resolveArray registry pre [] = (nodes, Some e) ->
      parseJSONLDContext registry input = (nodes, Some e)).
Proof.
  intros Hctx Hbad. unfold parseJSONLDContext. rewrite Hctx.
  rewrite resolveArray_app.
  destruct (resolveArray registry pre []) as [nodes' [e|]].
  - split; [done|]. split; intros nodes; [done|]. by intros e' [= -> ->].
  - rewrite (resolveArray_bad_element _ _ _ Hbad).
    split; [done|]. split; [|done]. by intros nodes [= ->].
Qed.

End ResolverProperties.

(** C2.  [ParseVocabulary] returns a nil vocabulary whatever the registry and
    the document; its error is the resolver's, and the resolver's nodes are
    dropped. *)
Theorem ParseVocabulary_nil_vocabulary `{Externals} {N : Type}
    (registry : RDFRegistry N) (input : JSONLD) :
  (ParseVocabulary registry input).1 = None /\
  (ParseVocabulary registry input).2 = (parseJSONLDContext registry input).2.
Proof.
  unfold ParseVocabulary.
  by destruct (parseJSONLDContext registry input) as [nodes err].
Qed.

(** The empty document, against the RFC registry. *)
Lemma parseJSONLDContext_missing_context_witness :
  emptyDocument !! JSON_LD_CONTEXT = None /\
  parseJSONLDContext (rfcRegistry goFed) emptyDocument =
  ([], Some (Errorf "no @context in input" [])).
Proof.
  split; [reflexivity|].
  apply (parseJSONLDContext_missing_context (rfcRegistry goFed) emptyDocument).
  reflexivity.
Defined.

(** The RFC ontology named twice: six nodes, three per lookup. *)
Lemma parseJSONLDContext_array_of_strings_witness :
  parseJSONLDContext (rfcRegistry goFed) rfcTwice =
    ((Load goFed).1 ++ (Load goFed).1 ++ [], None) /\
  length (parseJSONLDContext (rfcRegistry goFed) rfcTwice).1 = 6.
Proof.
  apply (parseJSONLDContext_array_of_strings (rfcRegistry goFed) rfcTwice
           [rfcSpec; rfcSpec]).
  - vm_compute. reflexivity.
  - repeat constructor.
Defined.

(** The RFC ontology followed by the number 42. *)
Lemma parseJSONLDContext_array_bad_element_witness :
  parseJSONLDContext (rfcRegistry goFed) rfcThenNumber =
  ((Load goFed).1, Some arrayShapeError).
Proof.
  destruct (parseJSONLDContext_array_bad_element (rfcRegistry goFed)
              rfcThenNumber [VString rfcSpec] [] (VNumber 42))
    as (_ & Hstop & _).
  - vm_compute. reflexivity.
  - reflexivity.
  - apply Hstop. vm_compute. reflexivity.
Defined.

(** C9, the claim as written fails: in [{"@context": ["as", 42]}] the
    sequence holds the number 42, yet against a registry that does not know
    "as" the resolver stops at the first element with the registry's error and
    never reports the shape of the second. *)
Lemma parseJSONLDContext_array_bad_element_counterexample :
  unknownThenNumber !! JSON_LD_CONTEXT =
    Some (VArray [VString "as"; VNumber 42]) /\
  isDictOrString (VNumber 42) = false /\
  parseJSONLDContext (rfcRegistry goFed) unknownThenNumber =
    ([], Some (Errorf "no ontology for %s" [VString "as"])) /\
  (parseJSONLDContext (rfcRegistry goFed) unknownThenNumber).2 <>
    Some arrayShapeError.
Proof.
  assert (parseJSONLDContext (rfcRegistry goFed) unknownThenNumber =
          ([], Some (Errorf "no ontology for %s" [VString "as"]))) as Heq
    by (vm_compute; reflexivity).
  split; [vm_compute; reflexivity|].
  split; [reflexivity|].
  split; [exact Heq|].
  rewrite Heq. discriminate.
Qed.

(** C1, the code at [{"@context": 42}].  The shape error assigned in the last
    branch is overwritten by [return registry.getFor(s)] with [s] empty: the
    resolver answers what the registry answers for the empty name.  Against a
    registry that does not know the empty name that is the registry's own
    error; against one that has a provider under the empty name it is that
    provider's nodes and no error at all. *)
Theorem parseJSONLDContext_number_context :
  isScalarNonString (VNumber 42) = true /\
  parseJSONLDContext (rfcRegistry goFed) numberDocument =
    ([], Some (Errorf "no ontology for %s" [VString ""])) /\
  (parseJSONLDContext (rfcRegistry goFed) numberDocument).2 <>
    Some singleShapeError /\
  parseJSONLDContext (aliasOnlyRegistry goFed) numberDocument =
    ([Bcp47Node {| bcp47_pkg := "vocab" |}], None).
Proof.
  split; [reflexivity|].
  rewrite !(parseJSONLDContext_scalar _ numberDocument (VNumber 42))
    by (vm_compute; reflexivity).
  split; [reflexivity|].
  split; [discriminate|reflexivity].
Qed.

(** * Properties of the RFC ontology *)

(** ** Stripping a prefix *)

Lemma prefix_app (p s : string) : String.prefix p (p +:+ s) = true.
Proof.
  induction p as [|a p IH]; simpl; [by destruct s|].
  by destruct (Ascii.ascii_dec a a).
Qed.

Lemma prefix_true_app (p s : string) :
  String.prefix p s = true -> exists suffix, s = p +:+ suffix.
Proof.
  revert s. induction p as [|a p IH]; intros s Hp.
  - by exists s.
  - destruct s as [|b s]; simpl in Hp; [done|].
    destruct (Ascii.ascii_dec a b) as [->|]; [|done].
    destruct (IH s Hp) as [suffix ->]. by exists suffix.
Qed.

Lemma substring_all (s : string) : String.substring 0 (String.length s) s = s.
Proof. induction s as [|a s IH]; simpl; [done|]. by rewrite IH. Qed.

Lemma substring_app (p s : string) :
  String.substring (String.length p)
    (String.length (p +:+ s) - String.length p) (p +:+ s) = s.
Proof.
  induction p as [|a p IH]; simpl.
  - rewrite Nat.sub_0_r. apply substring_all.
  - apply IH.
Qed.

Lemma TrimPrefix_app (p suffix : string) : TrimPrefix (p +:+ suffix) p = suffix.
Proof.
  unfold TrimPrefix, HasPrefix. rewrite prefix_app. apply substring_app.
Qed.

Lemma TrimPrefix_Stripped (p name suffix : string) :
  Stripped p name suffix -> TrimPrefix name p = suffix.
Proof.
  intros [suffix'|name' Hno]; [apply TrimPrefix_app|].
  unfold TrimPrefix, HasPrefix.
  destruct (String.prefix p name') eqn:Hp; [|done].
  destruct (prefix_true_app _ _ Hp) as [rest ->]. by destruct (Hno rest).
Qed.

Lemma Stripped_total (p name : string) : exists suffix, Stripped p name suffix.
Proof.
  destruct (String.prefix p name) eqn:Hp.
  - destruct (prefix_true_app _ _ Hp) as [rest ->]. exists rest. constructor.
  - exists name. constructor. intros rest ->. by rewrite prefix_app in Hp.
Qed.

(** C7.  [GetByName] takes the spec URI "https://tools.ietf.org/html/" off
    the front of the name when the name starts with it, and decides on what
    is left: the bcp47, mime or rel node for "bcp47", "rfc2045" or "rfc5988",
    and otherwise no node and an error that carries what is left. *)
Theorem GetByName_dispatch (o : RFCOntology) (name suffix : string) :
  Stripped "https://tools.ietf.org/html/" name suffix ->
  (suffix = "bcp47" ->
   GetByName o name = (Some (Bcp47Node {| bcp47_pkg := Package o |}), None)) /\
  (suffix = "rfc2045" ->
   GetByName o name = (Some (MimeNode {| mime_pkg := Package o |}), None)) /\
  (suffix = "rfc5988" ->
   GetByName o name = (Some (RelNode {| rel_pkg := Package o |}), None)) /\
  (suffix <> "bcp47" -> suffix <> "rfc2045" -> suffix <> "rfc5988" ->
   GetByName o name =
   (None, Some (Errorf "rfc ontology could not find node for name %s"
                  [VString suffix]))).
Proof.
  intros Hstrip. unfold GetByName, SpecURI, rfcSpec.
  rewrite (TrimPrefix_Stripped _ _ _ Hstrip).
  repeat split.
  - by intros ->.
  - by intros ->.
  - by intros ->.
  - intros H1 H2 H3.
    apply String.eqb_neq in H1, H2, H3.
    unfold bcp47Spec, mimeSpec, relSpec. by rewrite H1, H2, H3.
Qed.

(** The full URI of the media-type term. *)
Lemma GetByName_dispatch_witness :
  GetByName goFed "https://tools.ietf.org/html/rfc2045" =
  (Some (MimeNode {| mime_pkg := "vocab" |}), None).
Proof.
  destruct (GetByName_dispatch goFed "https://tools.ietf.org/html/rfc2045"
              "rfc2045") as (_ & Hmime & _).
  - apply (Stripped_prefix "https://tools.ietf.org/html/" "rfc2045").
  - apply Hmime. reflexivity.
Defined.

(** ** The three nodes *)

Section NodeProperties.
Context `{Externals}.

Lemma bcp47_Apply_applyTerm (b : bcp47) (key : string) (value : Value)
    (ctx : ParsingContext) :
  Apply b key value ctx = applyTerm bcp47Spec (bcp47_val b) ctx.
Proof.
  simpl. unfold bcp47_Apply, applyTerm.
  destruct (GetReference rfcSpec (Result ctx)) as [res v].
  destruct (_ =? _)%nat; [|done].
  destruct (url_Parse _) as [u|err]; [|done].
  by destruct (SetValue _ _ _) as [v' [e|]].
Qed.

Lemma mime_Apply_applyTerm (m : mime) (key : string) (value : Value)
    (ctx : ParsingContext) :
  Apply m key value ctx = applyTerm mimeSpec (mime_val m) ctx.
Proof.
  simpl. unfold mime_Apply, applyTerm.
  destruct (GetReference rfcSpec (Result ctx)) as [res v].
  destruct (_ =? _)%nat; [|done].
  destruct (url_Parse _) as [u|err]; [|done].
  by destruct (SetValue _ _ _) as [v' [e|]].
Qed.

Lemma rel_Apply_applyTerm (r : rel) (key : string) (value : Value)
    (ctx : ParsingContext) :
  Apply r key value ctx = applyTerm relSpec (rel_val r) ctx.
Proof.
  simpl. unfold rel_Apply, applyTerm.
  destruct (GetReference rfcSpec (Result ctx)) as [res v].
  destruct (_ =? _)%nat; [|done].
  destruct (url_Parse _) as [u|err]; [|done].
  by destruct (SetValue _ _ _) as [v' [e|]].
Qed.

Lemma applyTerm_claims (term : string) (mk : URL -> VocabularyValue)
    (ctx : ParsingContext) :
  (applyTerm term mk ctx).2.1 = true.
Proof.
  unfold applyTerm.
  destruct (GetReference rfcSpec (Result ctx)) as [res v].
  destruct (_ =? _)%nat; [|done].
  destruct (url_Parse _) as [u|err]; [|done].
  by destruct (SetValue _ _ _) as [v' e].
Qed.

(** C10.  [Apply] of each of the three nodes answers [true], whatever the
    key, the value and the context; the key and the value play no part in
    what it returns or in the context it leaves. *)
Theorem Apply_always_claims (key key' : string) (value value' : Value)
    (ctx : ParsingContext) :
  (forall b : bcp47,
      (Apply b key value ctx).2.1 = true /\
      Apply b key value ctx = Apply b key' value' ctx) /\
  (forall m : mime,
      (Apply m key value ctx).2.1 = true /\
      Apply m key value ctx = Apply m key' value' ctx) /\
  (forall r : rel,
      (Apply r key value ctx).2.1 = true /\
      Apply r key value ctx = Apply r key' value' ctx).
Proof.
  split; [|split]; intros x.
  - rewrite !bcp47_Apply_applyTerm. split; [apply applyTerm_claims|done].
  - rewrite !mime_Apply_applyTerm. split; [apply applyTerm_claims|done].
  - rewrite !rel_Apply_applyTerm. split; [apply applyTerm_claims|done].
Qed.

(** C5.  [Enter] and [Exit] of each of the three nodes return an error,
    whatever the key and the context. *)
Theorem Enter_Exit_always_fail (key : string) (ctx : ParsingContext) :
  (forall b : bcp47,
      is_Some (Enter b key ctx).2 /\ is_Some (Exit b key ctx).2) /\
  (forall m : mime,
      is_Some (Enter m key ctx).2 /\ is_Some (Exit m key ctx).2) /\
  (forall r : rel,
      is_Some (Enter r key ctx).2 /\ is_Some (Exit r key ctx).2).
Proof. repeat split; simpl; eauto. Qed.

(** *** How [Apply] runs *)

Lemma applyTerm_populated (term : string) (mk : URL -> VocabularyValue)
    (ctx : ParsingContext) (v : Vocabulary) :
  References (Result ctx) !! rfcSpec = Some v ->
  String.length (Name (valueAt v term)) <> 0 ->
  applyTerm term mk ctx = (ctx, (true, None)).
Proof.
  destruct ctx as [[refs]]; simpl. intros Hv Hlen.
  unfold applyTerm, GetReference; simpl. rewrite Hv.
  by destruct (Nat.eqb_spec (String.length (Name (valueAt v term))) 0).
Qed.

Lemma applyTerm_entry (term : string) (mk : URL -> VocabularyValue)
    (refs : gmap string Vocabulary) (v : Vocabulary) :
  refs !! rfcSpec = Some v ->
  applyTerm term mk {| Result := {| References := refs |} |} =
  if (String.length (Name (valueAt v term)) =? 0)%nat then
    match url_Parse (rfcSpec +:+ term) with
    | inr err => ({| Result := {| References := refs |} |}, (true, Some err))
    | inl u =>
        ({| Result :=
              {| References := <[rfcSpec := (SetValue term (mk u) v).1]> refs |} |},
         (true, (SetValue term (mk u) v).2))
    end
  else ({| Result := {| References := refs |} |}, (true, None)).
Proof.
  intros Hv. unfold applyTerm, GetReference; simpl. rewrite Hv.
  destruct (_ =? _)%nat; [|done].
  destruct (url_Parse _) as [u|err]; [|done].
  by destruct (SetValue term (mk u) v).
Qed.

Lemma applyTerm_no_entry (term : string) (mk : URL -> VocabularyValue)
    (refs : gmap string Vocabulary) :
  refs !! rfcSpec = None ->
  applyTerm term mk {| Result := {| References := refs |} |} =
  applyTerm term mk
    {| Result := {| References := <[rfcSpec := {| Values := ∅ |}]> refs |} |}.
Proof.
  intros Hv. unfold applyTerm, GetReference; simpl.
  by rewrite Hv, lookup_insert_eq.
Qed.

End NodeProperties.

(** ** The transform contracts of the bcp47 term *)

Section TransformContracts.
Context `{Externals}.

Lemma applyTerm_first (term : string) (mk : URL -> VocabularyValue)
    (ctx : ParsingContext) :
  Name (termAt ctx rfcSpec term) = "" ->
  (applyTerm term mk ctx).2.2 = None ->
  exists u,
    url_Parse (rfcSpec +:+ term) = inl u /\
    termAt (applyTerm term mk ctx).1 rfcSpec term = mk u.
Proof.
  destruct ctx as [[refs]]. unfold termAt at 1; simpl.
  assert (forall refs' v,
    refs' !! rfcSpec = Some v ->
    Name (valueAt v term) = "" ->
    (applyTerm term mk {| Result := {| References := refs' |} |}).2.2 = None ->
    exists u,
      url_Parse (rfcSpec +:+ term) = inl u /\
      termAt (applyTerm term mk {| Result := {| References := refs' |} |}).1
        rfcSpec term = mk u) as Hentry.
  { intros refs' v Hv Hempty. rewrite (applyTerm_entry term mk refs' v Hv).
    rewrite Hempty; simpl.
    destruct (url_Parse (rfcSpec +:+ term)) as [u|err]; [|done].
    simpl. intros Hok. exists u. split; [done|].
    unfold termAt; simpl. rewrite lookup_insert_eq; simpl.
    destruct v as [vals]. unfold SetValue, valueAt in *; simpl in *.
    destruct (vals !! term) as [old|] eqn:Hold; simpl in *.
    - destruct (decide (old = mk u)) as [->|]; [|done]. simpl. by rewrite Hold.
    - by rewrite lookup_insert_eq. }
  destruct (refs !! rfcSpec) as [v|] eqn:Hv; simpl.
  - by apply Hentry.
  - intros _. rewrite (applyTerm_no_entry term mk refs Hv).
    apply (Hentry _ {| Values := ∅ |}); [apply lookup_insert_eq|done].
Qed.

Lemma bcp47_Serialize (b : bcp47) (u : URL) (x : Value) :
  SerializeFn (bcp47_val b u) ≫= (fun f => call f [x]) = Some [x; VNil].
Proof.
  simpl. unfold call, parameters, execBlock; simpl.
  by rewrite String.eqb_refl.
Qed.

Lemma bcp47_Deserialize_string (b : bcp47) (u : URL) (s : string) :
  DeserializeFn (bcp47_val b u) ≫= (fun f => call f [VString s]) =
  Some [VString s; VNil].
Proof.
  simpl. unfold call, parameters, execBlock; simpl.
  by rewrite String.eqb_refl.
Qed.

Lemma bcp47_Deserialize_other (b : bcp47) (u : URL) (x : Value) :
  This <> "s" -> This <> "ok" ->
  (forall s, x <> VString s) ->
  DeserializeFn (bcp47_val b u) ≫= (fun f => call f [x]) =
  Some [VString ""; VError (bcp47TypeMismatch x)].
Proof.
  intros Hs Hok Hx.
  apply String.eqb_neq in Hs, Hok.
  simpl. unfold call, parameters, execBlock; simpl.
  rewrite String.eqb_refl.
  destruct x; try (simpl; by rewrite Hs, Hok, String.eqb_refl).
  by destruct (Hx s).
Qed.

(** C6.  The contracts that the first [Apply] of the bcp47 node attaches to
    the term: Serialize returns its argument and a nil error;
    Deserialize gives back every string that went through Serialize;
    Deserialize of anything that is not a string returns an error built from
    "%v cannot be interpreted as a string for bcp47 languagetag" and that
    very value.  The last part needs the argument name [codegen.This()] to
    differ from the two names the generated [if] header declares. *)
Theorem bcp47_transform_contracts (b : bcp47) (key : string) (value : Value)
    (ctx : ParsingContext) :
  This <> "s" -> This <> "ok" ->
  Name (termAt ctx rfcSpec bcp47Spec) = "" ->
  (Apply b key value ctx).2.2 = None ->
  exists serialize deserialize,
    SerializeFn (termAt (Apply b key value ctx).1 rfcSpec bcp47Spec) =
      Some serialize /\
    DeserializeFn (termAt (Apply b key value ctx).1 rfcSpec bcp47Spec) =
      Some deserialize /\
    (forall x, call serialize [x] = Some [x; VNil]) /\
    (forall s wire,
        call serialize [VString s] = Some [wire; VNil] ->
        call deserialize [wire] = Some [VString s; VNil]) /\
    (forall x, (forall s, x <> VString s) ->
        call deserialize [x] = Some [VString ""; VError (bcp47TypeMismatch x)]).
Proof.
  intros Hs Hok Hfresh. rewrite bcp47_Apply_applyTerm. intros Hnil.
  destruct (applyTerm_first bcp47Spec (bcp47_val b) ctx Hfresh Hnil)
    as (u & _ & ->).
  eexists _, _. split; [reflexivity|]. split; [reflexivity|].
  split; [|split].
  - intros x. apply (bcp47_Serialize b u x).
  - intros s wire Hwire.
    pose proof (bcp47_Serialize b u (VString s)) as Hser. simpl in Hser.
    rewrite Hser in Hwire. injection Hwire as <-.
    apply (bcp47_Deserialize_string b u s).
  - intros x Hx. by apply (bcp47_Deserialize_other b u x).
Qed.

End TransformContracts.

(** The first [Apply] on the empty context, and the language tag "en-US". *)
Lemma bcp47_transform_contracts_witness :
  exists serialize deserialize,
    @call rawExternals serialize [VString "en-US"] =
      Some [VString "en-US"; VNil] /\
    @call rawExternals deserialize [VString "en-US"] =
      Some [VString "en-US"; VNil] /\
    @call rawExternals deserialize [VNumber 42] =
      Some [VString ""; VError (bcp47TypeMismatch (VNumber 42))].
Proof.
  destruct (@bcp47_transform_contracts rawExternals {| bcp47_pkg := "vocab" |}
              "x" (VString "en-US") emptyContext)
    as (serialize & deserialize & _ & _ & Hser & Hround & Hmismatch).
  - discriminate.
  - discriminate.
  - vm_compute. reflexivity.
  - vm_compute. reflexivity.
  - exists serialize, deserialize.
    split; [apply Hser|].
    split; [apply Hround, Hser|].
    apply Hmismatch. discriminate.
Defined.

(** Why the argument name matters: were it "s", the generated
    [if s, ok := s.(string); ok { ... } else { ... }] would shadow the argument,
    and the error of the else branch would carry the empty string in place of
    the value given. *)
Remark bcp47_Deserialize_shadowed :
  DeserializeFn (@bcp47_val shadowedExternals {| bcp47_pkg := "vocab" |}
                   "https://tools.ietf.org/html/bcp47")
    ≫= (fun f => @call shadowedExternals f [VNumber 42]) =
  Some [VString ""; VError (bcp47TypeMismatch (VString ""))].
Proof. vm_compute. reflexivity. Qed.

(** * Further properties of the resolver *)

(** Case analysis on every registry call in the goal, closing the cases in
    which a call failed. *)
Ltac case_registry :=
  repeat match goal with
  | |- context [getFor ?r ?s] =>
      destruct (getFor r s) as [? [?|]]; simpl; try done
  | |- context [getAliased ?r ?a ?s] =>
      destruct (getAliased r a s) as [? [?|]]; simpl; try done
  | |- context [getAliasedObject ?r ?a ?m] =>
      destruct (getAliasedObject r a m) as [? [?|]]; simpl; try done
  end.

Section ResolverComposition.
Context {N : Type} (registry : RDFRegistry N).

Lemma parse_withContext_array (doc : JSONLD) (elems : list Value) :
  parseJSONLDContext registry (withContext (VArray elems) doc) =
  resolveArray registry elems [].
Proof.
  unfold parseJSONLDContext, withContext. by rewrite lookup_insert_eq.
Qed.

Lemma parse_withContext_dict (doc : JSONLD) (entries : list (string * Value)) :
  parseJSONLDContext registry (withContext (VMap entries) doc) =
  resolveDict registry
    "@context value in dict is neither a dict nor a string" entries [].
Proof.
  unfold parseJSONLDContext, withContext. by rewrite lookup_insert_eq.
Qed.

Lemma parse_withContext_string (doc : JSONLD) (s : string) :
  parseJSONLDContext registry (withContext (VString s) doc) =
  getFor registry s.
Proof.
  unfold parseJSONLDContext, withContext. rewrite lookup_insert_eq; simpl.
  by destruct (getFor registry s).
Qed.

Lemma resolveDict_app (shape : string) (pre rest : list (string * Value))
    (nodes : list N) :
  resolveDict registry shape (pre ++ rest) nodes =
  match resolveDict registry shape pre nodes with
  | (nodes', None) => resolveDict registry shape rest nodes'
  | failed => failed
  end.
Proof.
  revert nodes. induction pre as [|[alias val] pre IH]; intros nodes; [done|].
  destruct val; simpl; try done.
  - destruct (getAliased registry alias s) as [n [e|]]; [done|]. apply IH.
  - destruct (getAliasedObject registry alias entries) as [n [e|]]; [done|].
    apply IH.
Qed.

(** The nodes handed in are kept in front of whatever the loop adds, and
    play no part in what it adds or in its error. *)
Lemma resolveDict_shift (shape : string) (entries : list (string * Value))
    (nodes : list N) :
  resolveDict registry shape entries nodes =
  (nodes ++ (resolveDict registry shape entries []).1,
   (resolveDict registry shape entries []).2).
Proof.
  revert nodes. induction entries as [|[alias val] entries IH]; intros nodes;
    simpl.
  - by rewrite app_nil_r.
  - destruct val; simpl; try by rewrite app_nil_r.
    + destruct (getAliased registry alias s) as [n [e|]]; simpl;
        [by rewrite app_nil_r|].
      rewrite (IH (nodes ++ n)), (IH n). simpl. by rewrite app_assoc.
    + destruct (getAliasedObject registry alias entries0) as [n [e|]]; simpl;
        [by rewrite app_nil_r|].
      rewrite (IH (nodes ++ n)), (IH n). simpl. by rewrite app_assoc.
Qed.

Lemma resolveArray_shift (elems : list Value) (nodes : list N) :
  resolveArray registry elems nodes =
  (nodes ++ (resolveArray registry elems []).1,
   (resolveArray registry elems []).2).
Proof.
  revert nodes. induction elems as [|iVal elems IH]; intros nodes; simpl.
  - by rewrite app_nil_r.
  - destruct iVal; simpl; try by rewrite app_nil_r.
    + destruct (getFor registry s) as [n [e|]]; simpl;
        [by rewrite app_nil_r|].
      rewrite (IH (nodes ++ n)), (IH n). simpl. by rewrite app_assoc.
    + rewrite (resolveDict_shift _ entries nodes).
      destruct (resolveDict registry _ entries []) as [n [e|]]; simpl; [done|].
      rewrite (IH (nodes ++ n)), (IH n). simpl. by rewrite app_assoc.
Qed.

(** X1.  Resolving a sequence [pre ++ rest] is resolving [pre] and then
    [rest]: when [pre] resolves without error the nodes are those of [pre]
    followed by those of [rest], and the error is that of [rest]; when [pre]
    fails, the result is that of [pre] alone and [rest] is never looked at. *)
Theorem parseJSONLDContext_array_concat (doc : JSONLD)
    (pre rest : list Value) :
  ((parseJSONLDContext registry (withContext (VArray pre) doc)).2 = None ->
   parseJSONLDContext registry (withContext (VArray (pre ++ rest)) doc) =
   ((parseJSONLDContext registry (withContext (VArray pre) doc)).1 ++
    (parseJSONLDContext registry (withContext (VArray rest) doc)).1,
    (parseJSONLDContext registry (withContext (VArray rest) doc)).2)) /\
  ((parseJSONLDContext registry (withContext (VArray pre) doc)).2 <> None ->
   parseJSONLDContext registry (withContext (VArray (pre ++ rest)) doc) =
   parseJSONLDContext registry (withContext (VArray pre) doc)).
Proof.
  rewrite !parse_withContext_array, resolveArray_app.
  destruct (resolveArray registry pre []) as [nodes [e|]]; simpl.
  - split; [done|]. by intros _.
  - split; [intros _|done]. apply resolveArray_shift.
Qed.

(** X2.  A one-element sequence holding a string resolves like the bare
    string: both ask [getFor] once and return its error.  They return the same
    nodes when the lookup succeeds; when it fails, the bare string passes the
    nodes of the failed lookup on while the sequence returns none. *)
Theorem parseJSONLDContext_singleton_string (doc : JSONLD) (s : string) :
  parseJSONLDContext registry (withContext (VString s) doc) =
    getFor registry s /\
  parseJSONLDContext registry (withContext (VArray [VString s]) doc) =
    (if (getFor registry s).2 is None then (getFor registry s).1 else [],
     (getFor registry s).2).
Proof.
  rewrite parse_withContext_string, parse_withContext_array. simpl.
  by destruct (getFor registry s) as [n [e|]].
Qed.

Lemma resolveDict_shape (shape shape' : string)
    (entries : list (string * Value)) (nodes : list N) :
  (resolveDict registry shape entries nodes).1 =
    (resolveDict registry shape' entries nodes).1 /\
  ((resolveDict registry shape entries nodes).2 =
     (resolveDict registry shape' entries nodes).2 \/
   (resolveDict registry shape entries nodes).2 = Some (Errorf shape []) /\
   (resolveDict registry shape' entries nodes).2 = Some (Errorf shape' [])).
Proof.
  revert nodes. induction entries as [|[alias val] entries IH]; intros nodes;
    simpl; [by auto|].
  destruct val; simpl; auto.
  - destruct (getAliased registry alias s) as [n [e|]]; simpl; auto.
  - destruct (getAliasedObject registry alias entries0) as [n [e|]]; simpl;
      auto.
Qed.

(** X3.  A mapping wrapped in a one-element sequence resolves to the same
    nodes as the mapping alone, and with the same error, except that a value
    of the wrong shape is reported with the text of the loop that met it. *)
Theorem parseJSONLDContext_singleton_dict (doc : JSONLD)
    (entries : list (string * Value)) :
  (parseJSONLDContext registry (withContext (VArray [VMap entries]) doc)).1 =
    (parseJSONLDContext registry (withContext (VMap entries) doc)).1 /\
  ((parseJSONLDContext registry (withContext (VArray [VMap entries]) doc)).2 =
     (parseJSONLDContext registry (withContext (VMap entries) doc)).2 \/
   (parseJSONLDContext registry (withContext (VArray [VMap entries]) doc)).2 =
     Some (Errorf
             "@context value in dict in array is neither a dict nor a string"
             []) /\
   (parseJSONLDContext registry (withContext (VMap entries) doc)).2 =
     Some dictShapeError).
Proof.
  rewrite parse_withContext_array, parse_withContext_dict. simpl.
  pose proof (resolveDict_shape
    "@context value in dict in array is neither a dict nor a string"
    "@context value in dict is neither a dict nor a string" entries [])
    as [Hnodes Herr].
  destruct (resolveDict registry
    "@context value in dict in array is neither a dict nor a string"
    entries []) as [n [e|]]; simpl in *; by split.
Qed.

(** X5.  A mapping under [@context] with a value that is neither a mapping
    nor a string always fails; when the entries visited before it resolve
    without error, the failure is the shape error of the mapping loop and the
    nodes are those collected so far. *)
Theorem parseJSONLDContext_dict_bad_value (doc : JSONLD)
    (pre post : list (string * Value)) (alias : string) (bad : Value) :
  isDictOrString bad = false ->
  (parseJSONLDContext registry
     (withContext (VMap (pre ++ (alias, bad) :: post)) doc)).2 <> None /\
  ((parseJSONLDContext registry (withContext (VMap pre) doc)).2 = None ->
   parseJSONLDContext registry
     (withContext (VMap (pre ++ (alias, bad) :: post)) doc) =
   ((parseJSONLDContext registry (withContext (VMap pre) doc)).1,
    Some dictShapeError)).
Proof.
  intros Hbad. rewrite !parse_withContext_dict, resolveDict_app.
  destruct (resolveDict registry _ pre []) as [nodes [e|]]; simpl.
  - by split.
  - by destruct bad.
Qed.

Lemma resolveDict_Forall (P : N -> Prop) (shape : string)
    (entries : list (string * Value)) (nodes : list N) :
  (forall alias s, Forall P (getAliased registry alias s).1) ->
  (forall alias obj, Forall P (getAliasedObject registry alias obj).1) ->
  Forall P nodes ->
  Forall P (resolveDict registry shape entries nodes).1.
Proof.
  intros Haliased Hobject. revert nodes.
  induction entries as [|[alias val] entries IH]; intros nodes Hnodes;
    simpl; [done|].
  destruct val; simpl; try done.
  - pose proof (Haliased alias s) as Hn.
    destruct (getAliased registry alias s) as [n [e|]]; simpl in *; [done|].
    apply IH. by apply Forall_app.
  - pose proof (Hobject alias entries0) as Hn.
    destruct (getAliasedObject registry alias entries0) as [n [e|]];
      simpl in *; [done|].
    apply IH. by apply Forall_app.
Qed.

Lemma resolveArray_Forall (P : N -> Prop) (elems : list Value)
    (nodes : list N) :
  (forall s, Forall P (getFor registry s).1) ->
  (forall alias s, Forall P (getAliased registry alias s).1) ->
  (forall alias obj, Forall P (getAliasedObject registry alias obj).1) ->
  Forall P nodes ->
  Forall P (resolveArray registry elems nodes).1.
Proof.
  intros Hfor Haliased Hobject. revert nodes.
  induction elems as [|iVal elems IH]; intros nodes Hnodes; simpl; [done|].
  destruct iVal; simpl; try done.
  - pose proof (Hfor s) as Hn.
    destruct (getFor registry s) as [n [e|]]; simpl in *; [done|].
    apply IH. by apply Forall_app.
  - pose proof (resolveDict_Forall P
      "@context value in dict in array is neither a dict nor a string"
      entries nodes Haliased Hobject Hnodes) as Hn.
    destruct (resolveDict registry _ entries nodes) as [n [e|]]; simpl in *;
      [done|].
    by apply IH.
Qed.

(** X6.  The resolver makes up no node: a property that holds of every node
    the registry can hand back holds of every node the resolver returns,
    whatever the document and whether or not resolution fails. *)
Theorem parseJSONLDContext_nodes_from_registry (P : N -> Prop)
    (input : JSONLD) :
  (forall s, Forall P (getFor registry s).1) ->
  (forall alias s, Forall P (getAliased registry alias s).1) ->
  (forall alias obj, Forall P (getAliasedObject registry alias obj).1) ->
  Forall P (parseJSONLDContext registry input).1.
Proof.
  intros Hfor Haliased Hobject. unfold parseJSONLDContext.
  destruct (input !! JSON_LD_CONTEXT) as [i|]; [|done].
  assert (Forall P (getFor registry (assertString i).1).1) as Hscalar
    by apply Hfor.
  destruct i; simpl in *;
    try (destruct (getFor registry _) as [n' e']; exact Hscalar).
  - by apply resolveArray_Forall.
  - by apply resolveDict_Forall.
Qed.

Lemma resolveDict_permuted_nodes (shape shape' : string)
    (entries : list (string * Value)) (nodes nodes' r : list N) :
  nodes ≡ₚ nodes' ->
  resolveDict registry shape entries nodes = (r, None) ->
  exists r',
    resolveDict registry shape' entries nodes' = (r', None) /\ r ≡ₚ r'.
Proof.
  revert nodes nodes'.
  induction entries as [|[alias val] entries IH]; intros nodes nodes' Hperm;
    simpl.
  - intros [= <-]. by exists nodes'.
  - destruct val; simpl; try done.
    + destruct (getAliased registry alias s) as [n [e|]]; [done|].
      apply IH. by rewrite Hperm.
    + destruct (getAliasedObject registry alias entries0) as [n [e|]];
        [done|].
      apply IH. by rewrite Hperm.
Qed.

Lemma resolveDict_permutation (shape : string)
    (entries entries' : list (string * Value)) :
  entries ≡ₚ entries' ->
  forall nodes nodes' r,
    nodes ≡ₚ nodes' ->
    resolveDict registry shape entries nodes = (r, None) ->
    exists r',
      resolveDict registry shape entries' nodes' = (r', None) /\ r ≡ₚ r'.
Proof.
  induction 1 as [|[alias val] l l' Hl IH|[a1 v1] [a2 v2] l|l l' l'' _ IH1 _ IH2];
    intros nodes nodes' r Hperm.
  - simpl. intros [= <-]. by exists nodes'.
  - simpl. destruct val; simpl; try done; case_registry;
      apply IH; by rewrite Hperm.
  - simpl.
    assert (forall n1 n2 : list N,
               (nodes ++ n1) ++ n2 ≡ₚ (nodes' ++ n2) ++ n1) as Hswap.
    { intros n1 n2. rewrite Hperm, <- !app_assoc.
      by rewrite (Permutation_app_comm n1 n2). }
    destruct v1, v2; simpl; try done; case_registry;
      by apply resolveDict_permuted_nodes.
  - intros Hr. destruct (IH1 nodes nodes' r Hperm Hr) as (r' & Hr' & Hrr').
    destruct (IH2 nodes' nodes' r' (reflexivity _) Hr') as (r'' & Hr'' & ?).
    exists r''. split; [done|]. by etrans.
Qed.

(** X4.  The order in which a mapping under [@context] is visited decides
    neither whether resolution succeeds nor which nodes it returns: if it
    succeeds for one order of the entries, it succeeds for every other order,
    with the same nodes up to their order. *)
Theorem parseJSONLDContext_dict_order (doc : JSONLD)
    (entries entries' : list (string * Value)) :
  entries ≡ₚ entries' ->
  (parseJSONLDContext registry (withContext (VMap entries) doc)).2 = None ->
  (parseJSONLDContext registry (withContext (VMap entries') doc)).2 = None /\
  (parseJSONLDContext registry (withContext (VMap entries) doc)).1 ≡ₚ
    (parseJSONLDContext registry (withContext (VMap entries') doc)).1.
Proof.
  intros Hperm. rewrite !parse_withContext_dict.
  destruct (resolveDict registry _ entries []) as [r err] eqn:Hr; simpl.
  intros ->.
  destruct (resolveDict_permutation _ entries entries' Hperm [] [] r
              (reflexivity _) Hr) as (r' & -> & Hrr').
  by split.
Qed.

End ResolverComposition.

(** * Further properties of the RFC ontology *)

Section VocabularyEffects.
Context `{Externals}.

Lemma applyNode_applyTerm (n : RFCNode) (key : string) (value : Value)
    (ctx : ParsingContext) :
  applyNode n key value ctx = applyTerm (termOf n) (valOf n) ctx.
Proof.
  destruct n.
  - exact (bcp47_Apply_applyTerm b key value ctx).
  - exact (mime_Apply_applyTerm m key value ctx).
  - exact (rel_Apply_applyTerm r key value ctx).
Qed.

Lemma valOf_Name (n : RFCNode) (u : URL) : Name (valOf n u) = termOf n.
Proof. by destruct n. Qed.

Lemma termOf_length (n : RFCNode) : String.length (termOf n) <> 0.
Proof. by destruct n. Qed.

Lemma termAt_slotAt (ctx : ParsingContext) (spec name : string) :
  termAt ctx spec name = default zeroVocabularyValue (slotAt ctx spec name).
Proof.
  unfold termAt, slotAt, valueAt.
  destruct (References (Result ctx) !! spec) as [v|]; simpl; [done|].
  by rewrite lookup_empty.
Qed.

Lemma slotAt_rfcEntry (ctx : ParsingContext) (name : string) :
  slotAt ctx rfcSpec name = Values (rfcEntry ctx) !! name.
Proof.
  unfold slotAt, rfcEntry.
  destruct (References (Result ctx) !! rfcSpec) as [v|]; simpl; [done|].
  by rewrite lookup_empty.
Qed.

(** [Apply] stores under the RFC spec the entry it fetched, as the body left
    it, and returns the error of the body. *)
Lemma applyTerm_commitTerm (term : string) (mk : URL -> VocabularyValue)
    (ctx : ParsingContext) :
  applyTerm term mk ctx =
  ({| Result :=
        storeReference rfcSpec (commitTerm term mk (rfcEntry ctx)).1
          (Result ctx) |},
   (true, (commitTerm term mk (rfcEntry ctx)).2)).
Proof.
  destruct ctx as [[refs]]. unfold rfcEntry, storeReference; simpl.
  destruct (refs !! rfcSpec) as [v|] eqn:Hv; simpl.
  - rewrite (applyTerm_entry term mk refs v Hv). unfold commitTerm.
    destruct (_ =? _)%nat; simpl; [|by rewrite (insert_id refs rfcSpec v Hv)].
    destruct (url_Parse _) as [u|err]; simpl; [done|].
    by rewrite (insert_id refs rfcSpec v Hv).
  - rewrite (applyTerm_no_entry term mk refs Hv).
    rewrite (applyTerm_entry term mk _ {| Values := ∅ |})
      by apply lookup_insert_eq.
    unfold commitTerm.
    destruct (_ =? _)%nat; simpl; [|done].
    destruct (url_Parse _) as [u|err]; simpl; [|done].
    by rewrite insert_insert_eq.
Qed.

Lemma commitTerm_decision (term : string) (mk : URL -> VocabularyValue)
    (v : Vocabulary) :
  commitTerm term mk v =
  (match (commitDecision term mk (Values v !! term)).1 with
   | Some x => {| Values := <[term := x]> (Values v) |}
   | None => v
   end,
   (commitDecision term mk (Values v !! term)).2).
Proof.
  unfold commitTerm, commitDecision, valueAt, SetValue.
  destruct (_ =? _)%nat; [|done].
  destruct (url_Parse _) as [u|err]; [|done].
  destruct (Values v !! term) as [old|]; [|done].
  by destruct (decide (old = mk u)).
Qed.

Lemma String_length_zero (s : string) : String.length s = 0 <-> s = "".
Proof. by destruct s. Qed.

Lemma slotAt_applyTerm (term : string) (mk : URL -> VocabularyValue)
    (ctx : ParsingContext) (spec name : string) :
  slotAt (applyTerm term mk ctx).1 spec name =
  if decide (spec = rfcSpec)
  then Values (commitTerm term mk (rfcEntry ctx)).1 !! name
  else slotAt ctx spec name.
Proof.
  rewrite applyTerm_commitTerm. unfold slotAt, storeReference; simpl.
  destruct (decide (spec = rfcSpec)) as [->|Hne].
  - by rewrite lookup_insert_eq.
  - by rewrite lookup_insert_ne.
Qed.

Lemma commitTerm_other (term name : string) (mk : URL -> VocabularyValue)
    (v : Vocabulary) :
  name <> term ->
  Values (commitTerm term mk v).1 !! name = Values v !! name.
Proof.
  intros Hne. rewrite commitTerm_decision; simpl.
  destruct (commitDecision term mk (Values v !! term)).1; simpl; [|done].
  by rewrite lookup_insert_ne.
Qed.

Lemma commitTerm_failed (term : string) (mk : URL -> VocabularyValue)
    (v : Vocabulary) :
  (commitTerm term mk v).2 <> None -> (commitTerm term mk v).1 = v.
Proof.
  rewrite commitTerm_decision; simpl. unfold commitDecision.
  destruct (_ =? _)%nat; [|done].
  destruct (url_Parse _) as [u|err]; [|done].
  destruct (Values v !! term) as [old|]; [|done].
  by destruct (decide (old = mk u)).
Qed.

(** X7.  [Apply] of a node returns no error exactly when the name of its
    term is already set in the context, or the slot of the term is free and
    the URI of the term parses. *)
Theorem Apply_succeeds_iff (n : RFCNode) (key : string) (value : Value)
    (ctx : ParsingContext) :
  (applyNode n key value ctx).2.2 = None <->
  Name (termAt ctx rfcSpec (termOf n)) <> "" \/
  (slotAt ctx rfcSpec (termOf n) = None /\
   exists u, url_Parse (rfcSpec +:+ termOf n) = inl u).
Proof.
  rewrite applyNode_applyTerm, applyTerm_commitTerm; simpl.
  rewrite commitTerm_decision; simpl.
  rewrite termAt_slotAt, slotAt_rfcEntry. unfold commitDecision.
  destruct (Values (rfcEntry ctx) !! termOf n) as [old|] eqn:Hslot; simpl.
  - destruct (Nat.eqb_spec (String.length (Name old)) 0) as [Hzero|Hset].
    + apply String_length_zero in Hzero.
      destruct (url_Parse _) as [u|err].
      * destruct (decide (old = valOf n u)) as [->|Hne]; simpl.
        { rewrite valOf_Name in Hzero.
          by destruct (termOf_length n); rewrite Hzero. }
        split; [done|]. intros [Hname|[? _]]; [by rewrite Hzero in Hname|done].
      * simpl. split; [done|].
        intros [Hname|[? _]]; [by rewrite Hzero in Hname|done].
    + split; [intros _; left|done].
      intros Hname. by rewrite Hname in Hset.
  - destruct (url_Parse _) as [u|err]; simpl.
    + split; [intros _; right|done]. split; [done|by exists u].
    + split; [done|]. by intros [?|[_ [u ?]]].
Qed.

(** X8.  When the slot of its term is free and the URI parses, [Apply] of a
    node returns [true] and no error, and afterwards the slot holds the value
    the node builds from the parsed URI, under the name of the term. *)
Theorem Apply_fills_free_slot (n : RFCNode) (key : string) (value : Value)
    (ctx : ParsingContext) (u : URL) :
  slotAt ctx rfcSpec (termOf n) = None ->
  url_Parse (rfcSpec +:+ termOf n) = inl u ->
  (applyNode n key value ctx).2 = (true, None) /\
  slotAt (applyNode n key value ctx).1 rfcSpec (termOf n) =
    Some (valOf n u) /\
  Name (termAt (applyNode n key value ctx).1 rfcSpec (termOf n)) = termOf n.
Proof.
  intros Hfree Hparse. rewrite slotAt_rfcEntry in Hfree.
  rewrite termAt_slotAt, applyNode_applyTerm, slotAt_applyTerm.
  rewrite applyTerm_commitTerm; simpl.
  rewrite commitTerm_decision; simpl. unfold commitDecision.
  rewrite Hfree, Hparse; simpl.
  rewrite lookup_insert_eq; simpl.
  by rewrite valOf_Name.
Qed.

(** X9.  When the name of its term is already set, [Apply] of a node returns
    [true] and no error and leaves the whole context as it is, whatever
    value holds the slot. *)
Theorem Apply_populated_is_noop (n : RFCNode) (key : string) (value : Value)
    (ctx : ParsingContext) :
  Name (termAt ctx rfcSpec (termOf n)) <> "" ->
  applyNode n key value ctx = (ctx, (true, None)).
Proof.
  intros Hname. rewrite applyNode_applyTerm.
  unfold termAt in Hname.
  destruct (References (Result ctx) !! rfcSpec) as [v|] eqn:Hv; simpl in *.
  - apply (applyTerm_populated _ _ ctx v Hv).
    intros Hzero. by apply String_length_zero in Hzero.
  - unfold valueAt in Hname; simpl in Hname.
    by rewrite lookup_empty in Hname.
Qed.

(** X10.  An [Apply] that returns an error has written nothing: every slot
    of every reference entry reads as it did before the call. *)
Theorem Apply_failed_writes_nothing (n : RFCNode) (key : string)
    (value : Value) (ctx : ParsingContext) (spec name : string) :
  (applyNode n key value ctx).2.2 <> None ->
  slotAt (applyNode n key value ctx).1 spec name = slotAt ctx spec name.
Proof.
  rewrite applyNode_applyTerm, slotAt_applyTerm.
  rewrite applyTerm_commitTerm; simpl. intros Hfailed.
  destruct (decide (spec = rfcSpec)) as [->|]; [|done].
  by rewrite (commitTerm_failed _ _ _ Hfailed), slotAt_rfcEntry.
Qed.

(** X11.  [Apply] of a node touches no slot but that of its own term under
    the RFC spec: every other slot, of this and of every other reference
    entry, reads as it did before the call. *)
Theorem Apply_touches_own_slot_only (n : RFCNode) (key : string)
    (value : Value) (ctx : ParsingContext) (spec name : string) :
  spec <> rfcSpec \/ name <> termOf n ->
  slotAt (applyNode n key value ctx).1 spec name = slotAt ctx spec name.
Proof.
  intros Hother. rewrite applyNode_applyTerm, slotAt_applyTerm.
  destruct (decide (spec = rfcSpec)) as [->|]; [|done].
  destruct Hother as [?|Hname]; [done|].
  by rewrite (commitTerm_other _ _ _ _ Hname), slotAt_rfcEntry.
Qed.

Lemma commitTerm_commute (t1 t2 : string) (mk1 mk2 : URL -> VocabularyValue)
    (v : Vocabulary) :
  t1 <> t2 ->
  (commitTerm t2 mk2 (commitTerm t1 mk1 v).1).1 =
    (commitTerm t1 mk1 (commitTerm t2 mk2 v).1).1 /\
  (commitTerm t2 mk2 (commitTerm t1 mk1 v).1).2 = (commitTerm t2 mk2 v).2.
Proof.
  intros Hne.
  rewrite (commitTerm_decision t2 mk2 (commitTerm t1 mk1 v).1).
  rewrite (commitTerm_decision t1 mk1 (commitTerm t2 mk2 v).1).
  rewrite (commitTerm_other t1 t2 mk1 v) by done.
  rewrite (commitTerm_other t2 t1 mk2 v) by done.
  rewrite !commitTerm_decision; simpl.
  destruct (commitDecision t1 mk1 (Values v !! t1)).1 as [x1|],
           (commitDecision t2 mk2 (Values v !! t2)).1 as [x2|]; simpl;
    try done.
  by rewrite insert_insert_ne.
Qed.

(** X12.  Two nodes of different terms can be applied in either order: the
    context they leave is the same, and each returns what it would have
    returned had the other not run before it. *)
Theorem Apply_order_independent (n1 n2 : RFCNode) (key1 key2 : string)
    (value1 value2 : Value) (ctx : ParsingContext) :
  termOf n1 <> termOf n2 ->
  (applyNode n2 key2 value2 (applyNode n1 key1 value1 ctx).1).1 =
    (applyNode n1 key1 value1 (applyNode n2 key2 value2 ctx).1).1 /\
  (applyNode n2 key2 value2 (applyNode n1 key1 value1 ctx).1).2 =
    (applyNode n2 key2 value2 ctx).2.
Proof.
  intros Hne. rewrite !applyNode_applyTerm.
  rewrite !(applyTerm_commitTerm _ _ (applyTerm _ _ _).1).
  rewrite !(applyTerm_commitTerm _ _ ctx); simpl.
  unfold rfcEntry, storeReference; simpl. rewrite !lookup_insert_eq; simpl.
  rewrite !insert_insert_eq. fold (rfcEntry ctx).
  destruct (commitTerm_commute (termOf n1) (termOf n2) (valOf n1) (valOf n2)
              (rfcEntry ctx) Hne) as [-> ->].
  done.
Qed.

End VocabularyEffects.

Section FurtherContracts.
Context `{Externals}.

(** X13.  The mime and rel terms carry the same contracts as the bcp47 term:
    Serialize returns its argument and a nil error, Deserialize returns a
    string unchanged with a nil error, and Deserialize of anything else
    returns the empty string and the error of the term with that very value
    as its argument, provided the argument name [codegen.This()] is neither
    of the two names the generated [if] header declares. *)
Theorem mime_rel_transform_contracts (m : mime) (r : rel) (u : URL)
    (x : Value) :
  (SerializeFn (mime_val m u) ≫= (fun f => call f [x]) = Some [x; VNil] /\
   SerializeFn (rel_val r u) ≫= (fun f => call f [x]) = Some [x; VNil]) /\
  (forall s, x = VString s ->
     DeserializeFn (mime_val m u) ≫= (fun f => call f [x]) =
       Some [VString s; VNil] /\
     DeserializeFn (rel_val r u) ≫= (fun f => call f [x]) =
       Some [VString s; VNil]) /\
  (This <> "s" -> This <> "ok" -> (forall s, x <> VString s) ->
     DeserializeFn (mime_val m u) ≫= (fun f => call f [x]) =
       Some [VString ""; VError (mimeTypeMismatch x)] /\
     DeserializeFn (rel_val r u) ≫= (fun f => call f [x]) =
       Some [VString ""; VError (relTypeMismatch x)]).
Proof.
  split; [|split].
  - simpl. unfold call, parameters, execBlock; simpl.
    by rewrite String.eqb_refl.
  - intros s ->. simpl. unfold call, parameters, execBlock; simpl.
    by rewrite String.eqb_refl.
  - intros Hs Hok Hx. apply String.eqb_neq in Hs, Hok.
    simpl. unfold call, parameters, execBlock; simpl.
    rewrite String.eqb_refl.
    destruct x; try (simpl; by rewrite Hs, Hok, String.eqb_refl).
    by destruct (Hx s).
Qed.

(** X14.  The Less contract of each of the three terms, given two strings,
    returns one boolean and no error: whether the first is below the second
    in the byte-wise order of strings.  No string is below itself, no two
    strings are below each other, and of two different strings one is below
    the other. *)
Theorem Less_compares_strings (n : RFCNode) (u : URL) (a b : string) :
  LessFn (valOf n u) ≫= (fun f => call f [VString a; VString b]) =
    Some [VBool (String.ltb a b)] /\
  String.ltb a a = false /\
  (String.ltb a b = true -> String.ltb b a = false) /\
  (a <> b -> String.ltb a b = true \/ String.ltb b a = true).
Proof.
  split; [by destruct n|].
  split; [|split].
  - unfold String.ltb. pose proof (String.compare_antisym a a) as Hrefl.
    by destruct (String.compare a a).
  - unfold String.ltb. rewrite (String.compare_antisym a b).
    by destruct (String.compare b a).
  - intros Hne. unfold String.ltb. rewrite (String.compare_antisym a b).
    destruct (String.compare b a) eqn:Hcmp; simpl; auto.
    apply String.compare_eq_iff in Hcmp. by destruct Hne.
Qed.

End FurtherContracts.

(** ** Loading *)

(** X15.  [LoadSpecificAsAlias] succeeds exactly for the three short term
    names.  When it succeeds it returns one delegate, named by the alias and
    with empty spec and alias fields, around the node that [GetByName] finds
    for the name and for the name behind the spec URI.  Unlike [GetByName] it
    strips nothing: a name that carries the spec URI is refused. *)
Theorem LoadSpecificAsAlias_GetByName (o : RFCOntology) (alias name : string) :
  ((LoadSpecificAsAlias o alias name).2 = None <->
   name = "bcp47" \/ name = "rfc2045" \/ name = "rfc5988") /\
  ((LoadSpecificAsAlias o alias name).2 = None ->
   exists d,
     GetByName o name = (Some d, None) /\
     GetByName o (rfcSpec +:+ name) = (Some d, None) /\
     LoadSpecificAsAlias o alias name =
       ([AliasedDelegate "" "" alias d], None)) /\
  LoadSpecificAsAlias o alias (rfcSpec +:+ name) =
    ([], Some (Errorf "rfc ontology cannot find %q to alias to %q"
                 [VString (rfcSpec +:+ name); VString alias])).
Proof.
  assert ((LoadSpecificAsAlias o alias name).2 = None ->
          name = "bcp47" \/ name = "rfc2045" \/ name = "rfc5988") as Hnames.
  { unfold LoadSpecificAsAlias.
    destruct (String.eqb_spec name bcp47Spec); [by left|].
    destruct (String.eqb_spec name mimeSpec); [by right; left|].
    destruct (String.eqb_spec name relSpec); [by right; right|done]. }
  split; [|split].
  - split; [done|]. by intros [->|[->| ->]].
  - intros Hok. destruct (Hnames Hok) as [->|[->| ->]]; eexists;
      (split; [reflexivity|split; reflexivity]).
  - reflexivity.
Qed.

(** X16.  [LoadAsAlias] never fails and returns three delegates that carry
    the spec URI and the alias given.  Each can be found again: [GetByName]
    returns the node a delegate wraps both for the name the delegate carries
    and for that name behind the spec URI.  [Load] is [LoadAsAlias] with the
    empty alias. *)
Theorem LoadAsAlias_nodes_found (o : RFCOntology) (s : string) :
  (LoadAsAlias o s).2 = None /\
  length (LoadAsAlias o s).1 = 3 /\
  Load o = LoadAsAlias o "" /\
  Forall (fun n =>
            exists name d,
              n = AliasedDelegate (SpecURI o) s name d /\
              GetByName o name = (Some d, None) /\
              GetByName o (SpecURI o +:+ name) = (Some d, None))
         (LoadAsAlias o s).1.
Proof.
  repeat split.
  repeat constructor; eexists _, _; (split; [reflexivity|split; reflexivity]).
Qed.

(** * The further properties at concrete inputs *)

Lemma parseJSONLDContext_array_concat_witness :
  parseJSONLDContext (rfcRegistry goFed)
    (withContext (VArray ([VString rfcSpec] ++ [VString rfcSpec; VNumber 42]))
       emptyDocument) =
  ((Load goFed).1 ++ (Load goFed).1, Some arrayShapeError).
Proof.
  destruct (parseJSONLDContext_array_concat (rfcRegistry goFed) emptyDocument
              [VString rfcSpec] [VString rfcSpec; VNumber 42]) as [Hok _].
  rewrite Hok by (vm_compute; reflexivity).
  vm_compute. reflexivity.
Defined.

Lemma parseJSONLDContext_dict_order_witness :
  (parseJSONLDContext (rfcRegistry goFed)
     (withContext (VMap twoAliasesSwapped) emptyDocument)).2 = None /\
  (parseJSONLDContext (rfcRegistry goFed)
     (withContext (VMap twoAliases) emptyDocument)).1 ≡ₚ
  (parseJSONLDContext (rfcRegistry goFed)
     (withContext (VMap twoAliasesSwapped) emptyDocument)).1.
Proof.
  apply (parseJSONLDContext_dict_order (rfcRegistry goFed) emptyDocument
           twoAliases twoAliasesSwapped).
  - apply perm_swap.
  - vm_compute. reflexivity.
Defined.

Lemma parseJSONLDContext_dict_bad_value_witness :
  parseJSONLDContext (rfcRegistry goFed)
    (withContext (VMap (oneAlias ++ ("b", VNumber 42) :: [])) emptyDocument) =
  ((parseJSONLDContext (rfcRegistry goFed)
      (withContext (VMap oneAlias) emptyDocument)).1,
   Some dictShapeError).
Proof.
  destruct (parseJSONLDContext_dict_bad_value (rfcRegistry goFed)
              emptyDocument oneAlias [] "b" (VNumber 42)) as [_ Hstop].
  - reflexivity.
  - apply Hstop. vm_compute. reflexivity.
Defined.

Lemma parseJSONLDContext_nodes_from_registry_witness :
  Forall isDelegate (parseJSONLDContext (rfcRegistry goFed) rfcTwice).1.
Proof.
  apply (parseJSONLDContext_nodes_from_registry (rfcRegistry goFed)
           isDelegate rfcTwice).
  - intros s. simpl. destruct (String.eqb s _); simpl; [|constructor].
    repeat (constructor; [unfold isDelegate; eauto|]). constructor.
  - intros alias s. simpl. destruct (String.eqb s _); simpl; [|constructor].
    repeat (constructor; [unfold isDelegate; eauto|]). constructor.
  - intros alias obj. constructor.
Defined.

Lemma Apply_succeeds_iff_witness :
  (@applyNode rawExternals bcp47Node "x" (VString "en-US") emptyContext).2.2 =
  None.
Proof.
  apply (@Apply_succeeds_iff rawExternals bcp47Node "x" (VString "en-US")
           emptyContext).
  right. split; [reflexivity|]. by eexists.
Defined.

Lemma Apply_fills_free_slot_witness :
  (@applyNode rawExternals mimeNode "x" (VString "text/html") emptyContext).2 =
    (true, None) /\
  @slotAt rawExternals
    (@applyNode rawExternals mimeNode "x" (VString "text/html") emptyContext).1
    rfcSpec mimeSpec =
    Some (@valOf rawExternals mimeNode "https://tools.ietf.org/html/rfc2045") /\
  Name (@termAt rawExternals
          (@applyNode rawExternals mimeNode "x" (VString "text/html")
             emptyContext).1 rfcSpec mimeSpec) = mimeSpec.
Proof.
  apply (@Apply_fills_free_slot rawExternals mimeNode "x" (VString "text/html")
           emptyContext "https://tools.ietf.org/html/rfc2045");
    reflexivity.
Defined.

Lemma Apply_populated_is_noop_witness :
  @applyNode rawExternals bcp47Node "y" (VString "fr") bcp47Context =
  (bcp47Context, (true, None)).
Proof.
  apply (@Apply_populated_is_noop rawExternals bcp47Node "y" (VString "fr")
           bcp47Context).
  vm_compute. discriminate.
Defined.

Lemma Apply_failed_writes_nothing_witness :
  @slotAt rawExternals
    (@applyNode rawExternals bcp47Node "x" (VString "en-US")
       unnamedSlotContext).1 rfcSpec bcp47Spec =
  @slotAt rawExternals unnamedSlotContext rfcSpec bcp47Spec.
Proof.
  apply (@Apply_failed_writes_nothing rawExternals bcp47Node "x"
           (VString "en-US") unnamedSlotContext rfcSpec bcp47Spec).
  vm_compute. discriminate.
Defined.

Lemma Apply_touches_own_slot_only_witness :
  @slotAt rawExternals
    (@applyNode rawExternals mimeNode "x" (VString "text/html")
       bcp47Context).1 rfcSpec bcp47Spec =
  @slotAt rawExternals bcp47Context rfcSpec bcp47Spec.
Proof.
  apply (@Apply_touches_own_slot_only rawExternals mimeNode "x"
           (VString "text/html") bcp47Context rfcSpec bcp47Spec).
  right. discriminate.
Defined.

Lemma Apply_order_independent_witness :
  (@applyNode rawExternals mimeNode "y" (VString "text/html")
     (@applyNode rawExternals bcp47Node "x" (VString "en-US")
        emptyContext).1).1 =
  (@applyNode rawExternals bcp47Node "x" (VString "en-US")
     (@applyNode rawExternals mimeNode "y" (VString "text/html")
        emptyContext).1).1 /\
  (@applyNode rawExternals mimeNode "y" (VString "text/html")
     (@applyNode rawExternals bcp47Node "x" (VString "en-US")
        emptyContext).1).2 =
  (@applyNode rawExternals mimeNode "y" (VString "text/html")
     emptyContext).2.
Proof.
  apply (@Apply_order_independent rawExternals bcp47Node mimeNode "x" "y"
           (VString "en-US") (VString "text/html") emptyContext).
  discriminate.
Defined.

Lemma mime_rel_transform_contracts_witness :
  DeserializeFn (@mime_val rawExternals {| mime_pkg := "vocab" |}
                   "https://tools.ietf.org/html/rfc2045")
    ≫= (fun f => @call rawExternals f [VNumber 42]) =
    Some [VString ""; VError (mimeTypeMismatch (VNumber 42))] /\
  DeserializeFn (@rel_val rawExternals {| rel_pkg := "vocab" |}
                   "https://tools.ietf.org/html/rfc2045")
    ≫= (fun f => @call rawExternals f [VNumber 42]) =
    Some [VString ""; VError (relTypeMismatch (VNumber 42))].
Proof.
  destruct (@mime_rel_transform_contracts rawExternals
              {| mime_pkg := "vocab" |} {| rel_pkg := "vocab" |}
              "https://tools.ietf.org/html/rfc2045" (VNumber 42))
    as (_ & _ & Hmismatch).
  apply Hmismatch; discriminate.
Defined.

Lemma Less_compares_strings_witness :
  LessFn (@valOf rawExternals relNode "https://tools.ietf.org/html/rfc5988")
    ≫= (fun f => @call rawExternals f [VString "next"; VString "prev"]) =
    Some [VBool true] /\
  String.ltb "prev" "next" = false.
Proof.
  destruct (@Less_compares_strings rawExternals relNode
              "https://tools.ietf.org/html/rfc5988" "next" "prev")
    as (Hcall & _ & Hasym & _).
  split; [exact Hcall|]. apply Hasym. reflexivity.
Defined.

Lemma LoadSpecificAsAlias_GetByName_witness :
  exists d,
    GetByName goFed "rfc5988" = (Some d, None) /\
    GetByName goFed (rfcSpec +:+ "rfc5988") = (Some d, None) /\
    LoadSpecificAsAlias goFed "link" "rfc5988" =
      ([AliasedDelegate "" "" "link" d], None).
Proof.
  destruct (LoadSpecificAsAlias_GetByName goFed "link" "rfc5988")
    as (_ & Hfound & _).
  apply Hfound. reflexivity.
Defined.

(** X17.  [GetByName] finds a node for exactly six names: the three short
    term names, and each of them behind the spec URI.  It returns a node
    exactly when it returns no error; in particular a name that carries the
    spec URI twice is not found. *)
Theorem GetByName_recognised (o : RFCOntology) (name : string) :
  ((GetByName o name).2 = None <->
   exists t,
     (t = "bcp47" \/ t = "rfc2045" \/ t = "rfc5988") /\
     (name = t \/ name = rfcSpec +:+ t)) /\
  ((GetByName o name).2 = None <-> is_Some (GetByName o name).1).
Proof.
  assert (exists suffix,
             TrimPrefix name rfcSpec = suffix /\
             (name = suffix \/ name = rfcSpec +:+ suffix)) as (t & Htrim & Hname).
  { destruct (Stripped_total rfcSpec name) as [suffix Hstrip].
    exists suffix. split; [by apply TrimPrefix_Stripped|].
    destruct Hstrip; auto. }
  unfold GetByName, SpecURI. rewrite Htrim.
  destruct (String.eqb_spec t bcp47Spec) as [Ht|Hb]; simpl.
  { split; [|by split; eauto]. split; [|done]. intros _. exists t. auto. }
  destruct (String.eqb_spec t mimeSpec) as [Ht|Hm]; simpl.
  { split; [|by split; eauto]. split; [|done]. intros _. exists t. auto. }
  destruct (String.eqb_spec t relSpec) as [Ht|Hr]; simpl.
  { split; [|by split; eauto]. split; [|done]. intros _. exists t. auto. }
  split; [|split; [done|by intros [? ?]]].
  split; [done|]. intros (t' & Ht' & Hname').
  assert (TrimPrefix name rfcSpec = t') as Htrim'.
  { destruct Hname' as [->| ->]; [|apply TrimPrefix_app].
    by destruct Ht' as [->|[->| ->]]. }
  rewrite Htrim in Htrim'. subst t'.
  by destruct Ht' as [?|[?|?]].
Qed.

Lemma GetByName_recognised_witness :
  (GetByName goFed (rfcSpec +:+ rfcSpec +:+ "bcp47")).2 <> None.
Proof.
  destruct (GetByName_recognised goFed (rfcSpec +:+ rfcSpec +:+ "bcp47"))
    as [[Hnames _] _].
  intros Hfound. destruct (Hnames Hfound) as (t & Ht & Hname).
  destruct Ht as [->|[->| ->]]; by destruct Hname.
Defined.

(** * Applying a node twice *)

Section Idempotence.
Context `{Externals}.

Lemma termOf_nonempty (n : RFCNode) : termOf n <> "".
Proof. by destruct n. Qed.

Lemma applyTerm_named (term : string) (mk : URL -> VocabularyValue)
    (ctx : ParsingContext) :
  Name (termAt ctx rfcSpec term) <> "" ->
  applyTerm term mk ctx = (ctx, (true, None)).
Proof.
  intros Hname. unfold termAt in Hname.
  destruct (References (Result ctx) !! rfcSpec) as [v|] eqn:Hv; simpl in *.
  - apply (applyTerm_populated _ _ ctx v Hv).
    intros Hzero. by apply String_length_zero in Hzero.
  - unfold valueAt in Hname; simpl in Hname.
    by rewrite lookup_empty in Hname.
Qed.

Lemma applyTerm_free (term : string) (mk : URL -> VocabularyValue)
    (ctx : ParsingContext) (u : URL) :
  slotAt ctx rfcSpec term = None ->
  url_Parse (rfcSpec +:+ term) = inl u ->
  (applyTerm term mk ctx).2 = (true, None) /\
  slotAt (applyTerm term mk ctx).1 rfcSpec term = Some (mk u).
Proof.
  intros Hfree Hparse. rewrite slotAt_rfcEntry in Hfree.
  rewrite slotAt_applyTerm, applyTerm_commitTerm; simpl.
  rewrite commitTerm_decision; simpl. unfold commitDecision.
  rewrite Hfree, Hparse; simpl.
  by rewrite lookup_insert_eq.
Qed.

Lemma commitDecision_writes (term : string) (mk : URL -> VocabularyValue)
    (slot : option VocabularyValue) (x : VocabularyValue) :
  (commitDecision term mk slot).1 = Some x -> exists u, x = mk u.
Proof.
  unfold commitDecision.
  destruct (_ =? _)%nat; [|done].
  destruct (url_Parse _) as [u|err]; [|done].
  destruct slot as [old|]; simpl.
  - by destruct (decide (old = mk u)).
  - intros [= <-]. by exists u.
Qed.

(** The invariant: no context has a slot in use without a name when a parse
    session starts, and no [Apply] of a node of the package creates one. *)
Lemma NamedSlots_newContext : NamedSlots newContext.
Proof. intros name v. unfold slotAt; simpl. by rewrite lookup_empty. Qed.

Lemma NamedSlots_applyNode (n : RFCNode) (key : string) (value : Value)
    (ctx : ParsingContext) :
  NamedSlots ctx -> NamedSlots (applyNode n key value ctx).1.
Proof.
  intros Hnamed name v. rewrite applyNode_applyTerm, slotAt_applyTerm.
  rewrite decide_True by done.
  destruct (decide (name = termOf n)) as [->|Hne].
  - rewrite commitTerm_decision; simpl.
    destruct (commitDecision (termOf n) (valOf n)
                (Values (rfcEntry ctx) !! termOf n)).1 as [x|] eqn:Hx; simpl.
    + rewrite lookup_insert_eq. intros [= <-].
      destruct (commitDecision_writes _ _ _ _ Hx) as [u ->].
      rewrite valOf_Name. apply termOf_nonempty.
    + rewrite <- slotAt_rfcEntry. apply Hnamed.
  - rewrite (commitTerm_other _ _ _ _ Hne), <- slotAt_rfcEntry. apply Hnamed.
Qed.

Lemma NamedSlots_applyAll (calls : list (RFCNode * string * Value))
    (ctx : ParsingContext) :
  NamedSlots ctx -> NamedSlots (applyAll calls ctx).
Proof.
  revert ctx. induction calls as [|[[n key] value] calls IH]; intros ctx Hctx;
    simpl; [done|].
  by apply IH, NamedSlots_applyNode.
Qed.

(** C3.  For each of the three nodes and every key and value, calling
    [Apply] twice against the same context yields the parsed vocabulary that
    calling it once yields: the first call returns no error and leaves the
    name of the term non-empty; the second call finds it so, writes nothing
    (the context it returns is the context it was given) and returns [true]
    and no error.  The context is any context in which the slot of the term
    is free or holds a named value, which [NamedSlots] gives for every node
    and which holds of every context that [Apply] calls build from a new one
    ([NamedSlots_applyAll]); the URI of the term is one [url.Parse]
    accepts. *)
Theorem Apply_twice (n : RFCNode) (key : string) (value : Value)
    (ctx : ParsingContext) (u : URL) :
  (forall v, slotAt ctx rfcSpec (termOf n) = Some v -> Name v <> "") ->
  url_Parse (rfcSpec +:+ termOf n) = inl u ->
  (applyNode n key value ctx).2 = (true, None) /\
  Name (termAt (applyNode n key value ctx).1 rfcSpec (termOf n)) <> "" /\
  applyNode n key value (applyNode n key value ctx).1 =
    ((applyNode n key value ctx).1, (true, None)).
Proof.
  intros Hnamed Hparse.
  rewrite (applyNode_applyTerm n key value (applyNode n key value ctx).1).
  rewrite !(applyNode_applyTerm n key value ctx).
  destruct (slotAt ctx rfcSpec (termOf n)) as [v|] eqn:Hslot.
  - assert (Name (termAt ctx rfcSpec (termOf n)) <> "") as Hname.
    { rewrite termAt_slotAt, Hslot. by apply Hnamed. }
    rewrite (applyTerm_named _ _ ctx Hname); simpl.
    split; [done|]. split; [done|]. by apply applyTerm_named.
  - destruct (applyTerm_free (termOf n) (valOf n) ctx u Hslot Hparse)
      as [Hres Hwritten].
    assert (Name (termAt (applyTerm (termOf n) (valOf n) ctx).1 rfcSpec
                    (termOf n)) <> "") as Hname.
    { rewrite termAt_slotAt, Hwritten; simpl. rewrite valOf_Name.
      apply termOf_nonempty. }
    split; [done|]. split; [done|]. by apply applyTerm_named.
Qed.

End Idempotence.

(** From the new context: the first call writes the bcp47 term, the second
    finds it and does nothing. *)
Lemma Apply_twice_witness :
  (@applyNode rawExternals bcp47Node "x" (VString "en-US") emptyContext) =
    (bcp47Context, (true, None)) /\
  Name (@termAt rawExternals bcp47Context rfcSpec bcp47Spec) = "bcp47" /\
  @applyNode rawExternals bcp47Node "x" (VString "en-US") bcp47Context =
    (bcp47Context, (true, None)).
Proof.
  assert (@applyNode rawExternals bcp47Node "x" (VString "en-US") emptyContext
          = (bcp47Context, (true, None))) as Hfirst
    by (vm_compute; reflexivity).
  destruct (@Apply_twice rawExternals bcp47Node "x" (VString "en-US")
              emptyContext "https://tools.ietf.org/html/bcp47")
    as (_ & _ & Hsecond).
  - intros v Hv. vm_compute in Hv. discriminate Hv.
  - reflexivity.
  - rewrite Hfirst in Hsecond. simpl in Hsecond.
    split; [exact Hfirst|]. split; [reflexivity|exact Hsecond].
Defined.

(** Why the slot has to be free or named: a value without a name in the slot
    reads as an unwritten term, the commit is refused because the slot is
    taken, and so is every later call. *)
Remark Apply_unnamed_slot_refused :
  @applyNode rawExternals bcp47Node "x" (VString "en-US") unnamedSlotContext =
    (unnamedSlotContext, (true, Some (Collision "bcp47"))).
Proof. vm_compute. reflexivity. Qed.
